(** * Session connection manager of the trading dashboard

    A shallow embedding of [frontend/app/main.tsx] (the [App] component: the
    WebSocket effect, its four listeners, [switchUser] and
    [handleAccountUpdated]) and of [PaginationControls] from
    [frontend/app/components/portfolio/TradingDataView.tsx]; further down,
    of the loaders of that file's four tables, of the loader of
    [BalanceChartView], and of the page selection shared by [App] and
    [Sidebar].

    The browser is the environment: it constructs sockets, moves their
    [readyState], delivers lifecycle events, fires timers, and (re-)runs the
    React effect.  Every handler of the source is a function in a small
    state-and-exception monad; one environment event is one [step].

    Of the console traffic, [console.error] and [console.warn] are kept;
    the [console.log] lines are diagnostics without effect and are left
    out, except that reading [e.data.substring] for one of them is what
    makes a non-text frame throw.  The effect is the only one of its
    component, so a run of the effect body stands for a (re-)initialization
    and a run of its cleanup for a teardown; [wsRef] and the three session
    cells belong to the component instance and outlive both. *)

From stdpp Require Import gmap strings list fin_maps pretty.
From Stdlib Require Import ZArith Lia.

Local Open Scope Z_scope.
Set Warnings "-register-all".

(* ===================================================================== *)
(** ** JavaScript values handed out by [JSON.parse] *)
(* ===================================================================== *)

(** Objects keep their own properties as an association list (first match
    wins on lookup).  Numbers are the integer-valued ones of ordinary size,
    which print as plain decimals; only their truthiness and their printed
    form are ever observed by the code. *)
Inductive jsval : Type :=
| JUndefined
| JNull
| JBool (b : bool)
| JNum (n : Z)
| JStr (s : string)
| JArr (items : list jsval)
| JObj (fields : list (string * jsval)).

Inductive exn : Type :=
| TypeError          (* property read on null/undefined, call of a non-function *)
| SyntaxError        (* JSON.parse on malformed text *)
| InvalidStateError  (* WebSocket.send while CONNECTING *)
| DOMException.      (* the WebSocket constructor refusing its URL *)

Fixpoint own_property (k : string) (fields : list (string * jsval)) : option jsval :=
  match fields with
  | [] => None
  | (k', v) :: rest => if bool_decide (k' = k) then Some v else own_property k rest
  end.

(** [v.k] for the property names the code reads ([type], [user], [account],
    [overview], [message], [username], [name]): none of them lives on a
    prototype, so only own properties of objects answer; reading from
    [null] or [undefined] throws. *)
Definition getprop (v : jsval) (k : string) : exn + jsval :=
  match v with
  | JUndefined | JNull => inl TypeError
  | JObj fields => inr (default JUndefined (own_property k fields))
  | _ => inr JUndefined
  end.

Definition truthy (v : jsval) : bool :=
  match v with
  | JUndefined | JNull => false
  | JBool b => b
  | JNum n => negb (n =? 0)
  | JStr s => negb (bool_decide (s = ""))
  | JArr _ | JObj _ => true
  end.

(** [v === 'lit'] *)
Definition strict_eq_str (v : jsval) (lit : string) : bool :=
  match v with
  | JStr s => bool_decide (s = lit)
  | _ => false
  end.

(** String conversion inside a template literal.  A parsed object that
    carries an own [toString] property shadows [Object.prototype.toString]
    with a non-callable value, and the conversion throws. *)
Fixpoint ToString (v : jsval) : exn + string :=
  match v with
  | JUndefined => inr "undefined"
  | JNull => inr "null"
  | JBool b => inr (if b then "true" else "false")
  | JNum n => inr (pretty n)
  | JStr s => inr s
  | JArr items =>
      (fix join (l : list jsval) : exn + string :=
         match l with
         | [] => inr ""
         | x :: rest =>
             let elem := match x with
                         | JUndefined | JNull => inr ""
                         | _ => ToString x
                         end in
             match elem, rest with
             | inl e, _ => inl e
             | inr s, [] => inr s
             | inr s, _ :: _ =>
                 match join rest with
                 | inl e => inl e
                 | inr r => inr (s +:+ "," +:+ r)
                 end
             end
         end) items
  | JObj fields =>
      match own_property "toString" fields with
      | Some _ => inl TypeError
      | None => inr "[object Object]"
      end
  end.

(* ===================================================================== *)
(** ** The state the component and the browser share *)
(* ===================================================================== *)

Inductive ReadyState : Type := CONNECTING | OPEN | CLOSING | CLOSED.

#[global] Instance ReadyState_eq_dec : EqDecision ReadyState.
Proof. solve_decision. Defined.

(** Outbound intents; the frame put on the wire is their [JSON.stringify]. *)
Inductive Outbound : Type :=
| bootstrap (username : string) (initial_capital : Z)
| get_snapshot
| switch_user (username : string).

(** One [WebSocket] object.  [handlers] names the effect instance whose
    [handleOpen]/[handleMessage]/[handleClose]/[handleError] were registered
    with [addEventListener]. *)
Record WebSocket : Type := mkWebSocket {
  url : string;
  readyState : ReadyState;
  handlers : option nat;
  sent : list Outbound
}.

(** The variables one run of the effect closes over. *)
Record Closure : Type := mkClosure {
  ws : option nat;
  reconnectTimer : option nat
}.

(** A pending [setTimeout]; every callback in the source ends up calling
    [connectWebSocket] of the effect instance that armed it. *)
Record Timer : Type := mkTimer {
  due : Z;
  callback : nat
}.

Record Location : Type := mkLocation {
  hostname : string;
  protocol : string;
  host : string
}.

Inductive Icon : Type := icon_hourglass | icon_cycle.

Inductive Toast : Type :=
| toast_success (text : string)
| toast_plain (text : string) (icon : Icon)
| toast_error (content : jsval).

Inductive LogArg : Type :=
| log_str (s : string)
| log_val (v : jsval)
| log_exn (e : exn)
| log_state (r : option ReadyState).

Inductive LogEntry : Type :=
| console_error (args : list LogArg)
| console_warn (args : list LogArg)
| uncaught (e : exn).

(** [user], [account], [overview]: the three [useState] cells. *)
Record Session : Type := mkSession {
  user : jsval;
  account : jsval;
  overview : jsval
}.

Record State : Type := mkState {
  clock : Z;                       (* milliseconds *)
  location : option Location;      (* [None]: no [window] *)
  sockets : list WebSocket;        (* every socket constructed; index = identity *)
  __WS_SINGLETON__ : option nat;       (* the module-level singleton *)
  wsRef : option nat;              (* [wsRef.current] *)
  effects : list Closure;          (* one closure per run of the effect *)
  mounted : option nat;            (* the effect instance awaiting its cleanup *)
  timers : gmap nat Timer;         (* armed timeouts by handle *)
  next_timer : nat;                (* next handle; handles are positive *)
  session : Session;
  toasts : list Toast;
  console : list LogEntry
}.

Definition set_clock (f : Z → Z) (s : State) : State :=
  mkState (f (clock s)) (location s) (sockets s) (__WS_SINGLETON__ s) (wsRef s)
    (effects s) (mounted s) (timers s) (next_timer s) (session s) (toasts s) (console s).
Definition set_sockets (f : list WebSocket → list WebSocket) (s : State) : State :=
  mkState (clock s) (location s) (f (sockets s)) (__WS_SINGLETON__ s) (wsRef s)
    (effects s) (mounted s) (timers s) (next_timer s) (session s) (toasts s) (console s).
Definition set_singleton (v : option nat) (s : State) : State :=
  mkState (clock s) (location s) (sockets s) v (wsRef s)
    (effects s) (mounted s) (timers s) (next_timer s) (session s) (toasts s) (console s).
Definition set_wsRef (v : option nat) (s : State) : State :=
  mkState (clock s) (location s) (sockets s) (__WS_SINGLETON__ s) v
    (effects s) (mounted s) (timers s) (next_timer s) (session s) (toasts s) (console s).
Definition set_effects (f : list Closure → list Closure) (s : State) : State :=
  mkState (clock s) (location s) (sockets s) (__WS_SINGLETON__ s) (wsRef s)
    (f (effects s)) (mounted s) (timers s) (next_timer s) (session s) (toasts s) (console s).
Definition set_mounted (v : option nat) (s : State) : State :=
  mkState (clock s) (location s) (sockets s) (__WS_SINGLETON__ s) (wsRef s)
    (effects s) v (timers s) (next_timer s) (session s) (toasts s) (console s).
Definition set_timers (f : gmap nat Timer → gmap nat Timer) (s : State) : State :=
  mkState (clock s) (location s) (sockets s) (__WS_SINGLETON__ s) (wsRef s)
    (effects s) (mounted s) (f (timers s)) (next_timer s) (session s) (toasts s) (console s).
Definition set_next_timer (n : nat) (s : State) : State :=
  mkState (clock s) (location s) (sockets s) (__WS_SINGLETON__ s) (wsRef s)
    (effects s) (mounted s) (timers s) n (session s) (toasts s) (console s).
Definition set_session (f : Session → Session) (s : State) : State :=
  mkState (clock s) (location s) (sockets s) (__WS_SINGLETON__ s) (wsRef s)
    (effects s) (mounted s) (timers s) (next_timer s) (f (session s)) (toasts s) (console s).
Definition set_toasts (f : list Toast → list Toast) (s : State) : State :=
  mkState (clock s) (location s) (sockets s) (__WS_SINGLETON__ s) (wsRef s)
    (effects s) (mounted s) (timers s) (next_timer s) (session s) (f (toasts s)) (console s).
Definition set_console (f : list LogEntry → list LogEntry) (s : State) : State :=
  mkState (clock s) (location s) (sockets s) (__WS_SINGLETON__ s) (wsRef s)
    (effects s) (mounted s) (timers s) (next_timer s) (session s) (toasts s) (f (console s)).

(** The page as first loaded: nothing constructed, nothing armed, the three
    session cells [null]. *)
Definition init (loc : option Location) : State :=
  mkState 0 loc [] None None [] None ∅ 1%nat (mkSession JNull JNull JNull) [] [].

(* ===================================================================== *)
(** ** State and exceptions *)
(* ===================================================================== *)

(** A computation runs on the shared state and either returns or throws;
    writes made before a throw stay. *)
Definition M (A : Type) : Type := State → (exn + A) * State.

#[global] Instance M_ret : MRet M := λ A a s, (inr a, s).
#[global] Instance M_bind : MBind M := λ A B k m s,
  match m s with
  | (inl e, s') => (inl e, s')
  | (inr a, s') => k a s'
  end.

Definition throw {A} (e : exn) : M A := λ s, (inl e, s).
Definition try_catch {A} (body : M A) (handler : exn → M A) : M A := λ s,
  match body s with
  | (inl e, s') => handler e s'
  | r => r
  end.
Definition gets {A} (f : State → A) : M A := λ s, (inr (f s), s).
Definition modify (f : State → State) : M unit := λ s, (inr tt, f s).
Definition lift {A} (r : exn + A) : M A := λ s, (r, s).
Definition when (b : bool) (m : M unit) : M unit := if b then m else mret tt.

(* ===================================================================== *)
(** ** Browser primitives *)
(* ===================================================================== *)

Definition console_log (e : LogEntry) : M unit :=
  modify (set_console (λ l, l ++ [e])).

Definition toast (t : Toast) : M unit :=
  modify (set_toasts (λ l, l ++ [t])).

(** [setTimeout(cb, delay)]: arms a timer due [delay] ms from now and
    returns its handle. *)
Definition setTimeout (c : nat) (delay : Z) : M nat := λ s,
  let t := next_timer s in
  (inr t,
   set_next_timer (S t)
     (set_timers (λ m, <[t := mkTimer (clock s + delay) c]> m) s)).

Definition clearTimeout (t : nat) : M unit :=
  modify (set_timers (λ m, delete t m)).

(** [new WebSocket(url)]: the constructor either throws or hands out a
    fresh socket in state CONNECTING with no listener. *)
Definition new_WebSocket (throws : bool) (u : string) : M nat := λ s,
  if throws then (inl DOMException, s)
  else (inr (length (sockets s)),
        set_sockets (λ l, l ++ [mkWebSocket u CONNECTING None []]) s).

(** The four [addEventListener] calls of one [connectWebSocket] run. *)
Definition addEventListeners (w c : nat) : M unit :=
  modify (set_sockets (λ l,
    match l !! w with
    | Some k => <[w := mkWebSocket (url k) (readyState k) (Some c) (sent k)]> l
    | None => l
    end)).

(** [sock.send(JSON.stringify(m))]: throws while CONNECTING, transmits when
    OPEN, and silently discards the data once CLOSING or CLOSED. *)
Definition send (w : nat) (m : Outbound) : M unit := λ s,
  match sockets s !! w with
  | None => (inl TypeError, s)
  | Some k =>
      match readyState k with
      | CONNECTING => (inl InvalidStateError, s)
      | OPEN =>
          (inr tt,
           set_sockets
             <[w := mkWebSocket (url k) OPEN (handlers k) (sent k ++ [m])]> s)
      | CLOSING | CLOSED => (inr tt, s)
      end
  end.

(** [x!.send(...)] / [x.send(...)] on a nullable reference. *)
Definition send_on (r : option nat) (m : Outbound) : M unit :=
  match r with
  | None => throw TypeError
  | Some w => send w m
  end.

Definition closure (c : nat) : M Closure := λ s,
  (inr (default (mkClosure None None) (effects s !! c)), s).

(** Assignments to the two variables of effect instance [c]. *)
Definition with_ws (c : nat) (v : option nat) (l : list Closure) : list Closure :=
  match l !! c with
  | Some k => <[c := mkClosure v (reconnectTimer k)]> l
  | None => l
  end.

Definition with_reconnectTimer (c : nat) (v : option nat) (l : list Closure) : list Closure :=
  match l !! c with
  | Some k => <[c := mkClosure (ws k) v]> l
  | None => l
  end.

Definition set_ws (c : nat) (v : option nat) : M unit :=
  modify (set_effects (with_ws c v)).

Definition set_reconnectTimer (c : nat) (v : option nat) : M unit :=
  modify (set_effects (with_reconnectTimer c v)).

Definition setUser (v : jsval) : M unit :=
  modify (set_session (λ x, mkSession v (account x) (overview x))).
Definition setAccount (v : jsval) : M unit :=
  modify (set_session (λ x, mkSession (user x) v (overview x))).
Definition setOverview (v : jsval) : M unit :=
  modify (set_session (λ x, mkSession (user x) (account x) v)).

Definition readyState_of (s : State) (r : option nat) : option ReadyState :=
  w ← r; readyState <$> sockets s !! w.

(* ===================================================================== *)
(** ** main.tsx *)
(* ===================================================================== *)

Definition resolveWsUrl : M string :=
  loc ← gets location;
  match loc with
  | None => mret "ws://localhost:5611/ws"
  | Some l =>
      if bool_decide (hostname l = "localhost") || bool_decide (hostname l = "127.0.0.1")
      then mret "ws://localhost:5611/ws"
      else
        let proto := if bool_decide (protocol l = "https:") then "wss:" else "ws:" in
        mret (proto +:+ "//" +:+ host l +:+ "/ws")
  end.

(** What arrives as [e.data], with the verdict of [JSON.parse] on it. *)
Inductive FrameData : Type :=
| NotText                 (* a binary frame: [e.data.substring] is not a function *)
| Malformed               (* text on which [JSON.parse] throws *)
| Json (msg : jsval).     (* text on which [JSON.parse] returns [msg] *)

Definition handleOpen (c : nat) : M unit :=
  k ← closure c;
  send_on (ws k) (bootstrap "default" 10000).

Definition handleMessage (c : nat) (data : FrameData) : M unit :=
  try_catch
    (msg ← match data with
           | NotText => throw TypeError
           | Malformed => throw SyntaxError
           | Json msg => mret msg
           end;
     type ← lift (getprop msg "type");
     if strict_eq_str type "bootstrap_ok" then
       u ← lift (getprop msg "user");
       when (truthy u) (setUser u);;
       a ← lift (getprop msg "account");
       when (truthy a) (setAccount a);;
       k ← closure c;
       send_on (ws k) get_snapshot
     else if strict_eq_str type "snapshot" then
       o ← lift (getprop msg "overview");
       setOverview o
     else if strict_eq_str type "order_filled" then
       toast (toast_success "Order filled");;
       k ← closure c;
       send_on (ws k) get_snapshot
     else if strict_eq_str type "order_pending" then
       toast (toast_plain "Order placed, waiting for fill" icon_hourglass);;
       k ← closure c;
       send_on (ws k) get_snapshot
     else if strict_eq_str type "user_switched" then
       u ← lift (getprop msg "user");
       name ← lift (getprop u "username");
       text ← lift (ToString name);
       toast (toast_success ("Switched to " +:+ text));;
       setUser u
     else if strict_eq_str type "account_switched" then
       a ← lift (getprop msg "account");
       name ← lift (getprop a "name");
       text ← lift (ToString name);
       toast (toast_success ("Switched to " +:+ text));;
       setAccount a
     else if strict_eq_str type "error" then
       m ← lift (getprop msg "message");
       console_log (console_error [log_val m]);;
       toast (toast_error (if truthy m then m else JStr "Order error"))
     else mret tt)
    (λ err,
       console_log (console_error [log_str "Failed to parse WebSocket message:"; log_exn err])).

Definition connectWebSocket_body (c : nat) (throws : bool) : M unit :=
  wsUrl ← resolveWsUrl;
  w ← new_WebSocket throws wsUrl;
  set_ws c (Some w);;
  modify (set_singleton (Some w));;
  modify (set_wsRef (Some w));;
  addEventListeners w c.

(** [throws] tells whether the constructor refuses this time.  The closure
    the source returns to remove the four listeners is dropped at every call
    site (the effect body and both timer callbacks), so it is not run by
    anything. *)
Definition connectWebSocket (c : nat) (throws : bool) : M unit :=
  try_catch
    (connectWebSocket_body c throws)
    (λ err,
       console_log (console_error [log_str "Failed to create WebSocket:"; log_exn err]);;
       t ← setTimeout c 5000;
       set_reconnectTimer c (Some t)).

Definition handleClose (c : nat) (code : Z) : M unit :=
  modify (set_singleton None);;
  k ← closure c;
  cur ← gets wsRef;
  when (bool_decide (cur = ws k)) (modify (set_wsRef None));;
  when (negb (code =? 1000) && negb (code =? 1001))
    (t ← setTimeout c 3000;
     set_reconnectTimer c (Some t)).

Definition handleError (c : nat) : M unit :=
  console_log (console_error [log_str "WebSocket error:"]);;
  k ← closure c;
  st ← gets (λ s, readyState_of s (ws k));
  console_log (console_error [log_str "WebSocket state:"; log_state st]).

(** [!ws || ws.readyState === CLOSING || ws.readyState === CLOSED], with
    [ws] just read from the singleton. *)
Definition created (s : State) : bool :=
  match __WS_SINGLETON__ s with
  | None => true
  | Some w =>
      match readyState <$> sockets s !! w with
      | Some CLOSING | Some CLOSED => true
      | _ => false
      end
  end.

(** The body of the effect, run as instance [c]: a fresh pair of variables
    ([reconnectTimer] null, [ws] the singleton), then connect or reuse. *)
Definition effect_body (c : nat) (throws : bool) : M unit :=
  single ← gets __WS_SINGLETON__;
  fresh ← gets created;
  modify (set_effects (λ l, l ++ [mkClosure single None]));;
  if (fresh : bool) then connectWebSocket c throws
  else modify (set_wsRef single).

(** The cleanup the effect returns. *)
Definition effect_cleanup (c : nat) : M unit :=
  k ← closure c;
  match reconnectTimer k with
  | Some t => clearTimeout t
  | None => mret tt
  end.

Definition not_connected (s : State) : bool :=
  match readyState_of s (wsRef s) with
  | Some OPEN => false
  | _ => true
  end.

Definition switchUser (username : string) : M unit :=
  disconnected ← gets not_connected;
  if (disconnected : bool) then
    console_log (console_warn [log_str "WS not connected, cannot switch user"]);;
    toast (toast_error (JStr "Not connected to server"))
  else
    try_catch
      (r ← gets wsRef;
       send_on r (switch_user username);;
       toast (toast_plain "Switching account..." icon_cycle))
      (λ e,
         console_log (console_error [log_exn e]);;
         toast (toast_error (JStr "Failed to switch user"))).

Definition handleAccountUpdated : M unit :=
  disconnected ← gets not_connected;
  if (disconnected : bool) then mret tt
  else r ← gets wsRef; send_on r get_snapshot.

(** The placeholder is shown unless all three cells are truthy. *)
Definition renders_interface (s : State) : bool :=
  truthy (user (session s)) && truthy (account (session s)) && truthy (overview (session s)).

(* ===================================================================== *)
(** ** The environment: one event at a time *)
(* ===================================================================== *)

Inductive Event : Type :=
| Mount (throws : bool)                 (* React runs the effect *)
| Unmount                               (* React runs the effect's cleanup *)
| Elapse (dt : Z)                       (* time passes *)
| Fire (t : nat) (throws : bool)        (* an armed timeout comes due *)
| WsOpen (w : nat)
| WsMessage (w : nat) (data : FrameData)
| WsClosing (w : nat)                   (* closing handshake under way *)
| WsClose (w : nat) (code : Z)
| WsError (w : nat)
| ClickSwitchUser (username : string)   (* Header's onUserChange *)
| AccountUpdated.                       (* Sidebar's onAccountUpdated *)

(** A callback invoked by the browser: an exception that escapes it is
    reported on the console and the page lives on. *)
Definition run_callback (m : M unit) (s : State) : State :=
  match m s with
  | (inr _, s') => s'
  | (inl e, s') => set_console (λ l, l ++ [uncaught e]) s'
  end.

(** Deliver an event of socket [w] to whatever listeners it carries. *)
Definition dispatch (w : nat) (h : nat → M unit) : M unit :=
  k ← gets (λ s, sockets s !! w);
  match k ≫= handlers with
  | Some c => h c
  | None => mret tt
  end.

Definition set_readyState (w : nat) (r : ReadyState) (s : State) : State :=
  set_sockets (λ l,
    match l !! w with
    | Some k => <[w := mkWebSocket (url k) r (handlers k) (sent k)]> l
    | None => l
    end) s.

(** [None]: the browser cannot produce this event in this state.  The effect
    and its cleanup alternate; a timer fires once due and is consumed; a
    socket opens from CONNECTING, receives while OPEN, closes once; the two
    user callbacks exist only while the interface is rendered. *)
Definition step (e : Event) (s : State) : option State :=
  match e with
  | Mount throws =>
      match mounted s with
      | Some _ => None
      | None =>
          let c := length (effects s) in
          Some (set_mounted (Some c) (run_callback (effect_body c throws) s))
      end
  | Unmount =>
      match mounted s with
      | Some c => Some (set_mounted None (run_callback (effect_cleanup c) s))
      | None => None
      end
  | Elapse dt =>
      if 0 <=? dt then Some (set_clock (λ now, now + dt) s) else None
  | Fire t throws =>
      match timers s !! t with
      | Some tm =>
          if due tm <=? clock s
          then Some (run_callback (connectWebSocket (callback tm) throws)
                       (set_timers (λ m, delete t m) s))
          else None
      | None => None
      end
  | WsOpen w =>
      match readyState <$> sockets s !! w with
      | Some CONNECTING =>
          Some (run_callback (dispatch w handleOpen) (set_readyState w OPEN s))
      | _ => None
      end
  | WsMessage w data =>
      match readyState <$> sockets s !! w with
      | Some OPEN =>
          Some (run_callback (dispatch w (λ c, handleMessage c data)) s)
      | _ => None
      end
  | WsClosing w =>
      match readyState <$> sockets s !! w with
      | Some CONNECTING | Some OPEN => Some (set_readyState w CLOSING s)
      | _ => None
      end
  | WsClose w code =>
      match readyState <$> sockets s !! w with
      | Some CONNECTING | Some OPEN | Some CLOSING =>
          Some (run_callback (dispatch w (λ c, handleClose c code))
                  (set_readyState w CLOSED s))
      | _ => None
      end
  | WsError w =>
      match sockets s !! w with
      | Some _ => Some (run_callback (dispatch w handleError) s)
      | None => None
      end
  | ClickSwitchUser username =>
      if renders_interface s then Some (run_callback (switchUser username) s) else None
  | AccountUpdated =>
      if renders_interface s then Some (run_callback handleAccountUpdated s) else None
  end.

Fixpoint run (evs : list Event) (s : State) : option State :=
  match evs with
  | [] => Some s
  | e :: rest =>
      match step e s with
      | Some s' => run rest s'
      | None => None
      end
  end.

Inductive reachable : State → Prop :=
| reachable_init loc : reachable (init loc)
| reachable_step s e s' : reachable s → step e s = Some s' → reachable s'.

(** How often timer [t] fires in a trace. *)
Fixpoint fired (t : nat) (evs : list Event) : nat :=
  match evs with
  | [] => 0%nat
  | Fire t' _ :: rest => ((if bool_decide (t' = t) then 1 else 0) + fired t rest)%nat
  | _ :: rest => fired t rest
  end.

(** Sockets that hold or are acquiring a connection. *)
Definition in_flight (k : WebSocket) : bool :=
  match readyState k with
  | CONNECTING | OPEN => true
  | CLOSING | CLOSED => false
  end.

Definition connections (s : State) : nat :=
  length (filter (λ k, in_flight k = true) (sockets s)).

(* ===================================================================== *)
(** ** TradingDataView.tsx: a table's page cursor and [PaginationControls] *)
(* ===================================================================== *)

Module Pagination.

(** The three cells of a table ([AIDecisionsTable], [PositionsTable],
    [OrdersTable] and [TradesTable] are alike) that the controls see.
    [data] keeps the [total_pages] of the last response, an integer page
    count. *)
Record Table : Type := mkTable {
  page : Z;
  data : option Z;
  loading : bool
}.

(** [useState(1)], [useState(null)], [useState(false)] *)
Definition initial : Table := mkTable 1 None false.

(** [data?.total_pages || 0] *)
Definition totalPages (t : Table) : Z :=
  match data t with
  | Some n => if n =? 0 then 0 else n
  | None => 0
  end.

Inductive Button : Type := First | Prev | Next | Last.

(** The [disabled] attribute of each button. *)
Definition disabled (b : Button) (t : Table) : bool :=
  match b with
  | First | Prev => (page t =? 1) || loading t
  | Next | Last => (totalPages t <=? page t) || loading t
  end.

(** The argument each [onClick] passes to [onPageChange]. *)
Definition requested (b : Button) (t : Table) : Z :=
  match b with
  | First => 1
  | Prev => page t - 1
  | Next => page t + 1
  | Last => totalPages t
  end.

Inductive Event : Type :=
| Click (b : Button)
| LoadStart                       (* [setLoading(true)] *)
| LoadDone (total_pages : Z)      (* [setData(result)], then [setLoading(false)] *)
| LoadFailed.                     (* the request threw: only [setLoading(false)] *)

(** A disabled button swallows the click; [onPageChange] is [setPage]. *)
Definition step (e : Event) (t : Table) : Table :=
  match e with
  | Click b =>
      if disabled b t then t
      else mkTable (requested b t) (data t) (loading t)
  | LoadStart => mkTable (page t) (data t) true
  | LoadDone n => mkTable (page t) (Some n) false
  | LoadFailed => mkTable (page t) (data t) false
  end.

Fixpoint run (evs : list Event) (t : Table) : Table :=
  match evs with
  | [] => t
  | e :: rest => run rest (step e t)
  end.



End Pagination.

(* ===================================================================== *)
(** ** Vocabulary of the statements *)
(* ===================================================================== *)

(** *** What most handlers leave alone *)

(** Everything but the session cells, the notifications, the console and
    what has been sent. *)
Definition wiring (s : State) :=
  (clock s, (λ k, (readyState k, handlers k)) <$> sockets s, __WS_SINGLETON__ s,
   wsRef s, effects s, mounted s, timers s, next_timer s).

Definition quiet {A} (m : M A) : Prop := ∀ s, wiring (m s).2 = wiring s.

(** [event.code !== 1000 && event.code !== 1001] *)
Definition abnormal (code : Z) : bool := negb (code =? 1000) && negb (code =? 1001).

Definition closure_of (s : State) (c : nat) : Closure :=
  default (mkClosure None None) (effects s !! c).

(** The first two statements of [handleClose]. *)
Definition after_close_refs (c : nat) (s : State) : State :=
  let s1 := set_singleton None s in
  if bool_decide (wsRef s = ws (closure_of s c)) then set_wsRef None s1 else s1.

(** [readyState] and listeners of socket [w]. *)
Definition wired (s : State) (w : nat) : option (ReadyState * option nat) :=
  (λ k, (readyState k, handlers k)) <$> sockets s !! w.

Definition listener (s : State) (w : nat) : option nat :=
  sockets s !! w ≫= handlers.

(** One more frame handed to socket [w]. *)
Definition transmit (w : nat) (m : Outbound) (l : list WebSocket) : list WebSocket :=
  match l !! w with
  | Some k => <[w := mkWebSocket (url k) (readyState k) (handlers k) (sent k ++ [m])]> l
  | None => l
  end.

(** *** The invariant of reachable states

    Timer handles are positive and below the next one; every socket carries
    listeners of an existing effect instance; a socket that is not CLOSED is
    the one its instance's [ws] variable holds; an armed timer is the one
    its instance's [reconnectTimer] holds, and that instance has no socket
    left that is not CLOSED; a handle kept in [reconnectTimer] was armed by
    that very instance. *)
Record wf (s : State) : Prop := mk_wf {
  wf_next : (0 < next_timer s)%nat;
  wf_fresh : ∀ t, is_Some (timers s !! t) → (0 < t < next_timer s)%nat;
  wf_listeners : ∀ w r h, wired s w = Some (r, h) →
    ∃ c, h = Some c ∧ (c < length (effects s))%nat;
  wf_current : ∀ w r c, wired s w = Some (r, Some c) → r ≠ CLOSED →
    ws <$> effects s !! c = Some (Some w);
  wf_armed : ∀ t tm, timers s !! t = Some tm →
    reconnectTimer <$> effects s !! callback tm = Some (Some t) ∧
    ∀ w r, wired s w = Some (r, Some (callback tm)) → r = CLOSED;
  wf_handle : ∀ c k t, effects s !! c = Some k → reconnectTimer k = Some t →
    (t < next_timer s)%nat ∧ ∀ tm, timers s !! t = Some tm → callback tm = c;
  wf_mounted : ∀ c, mounted s = Some c → (c < length (effects s))%nat
}.

(** Instance [c] has no socket alive and no timer armed. *)
Definition idle (s : State) (c : nat) : Prop :=
  (∀ w r, wired s w = Some (r, Some c) → r = CLOSED) ∧
  (∀ t tm, timers s !! t = Some tm → callback tm ≠ c).

(** *** Timers along a run *)

(** From [s] to [s']: handles only grow, time only advances, and a handle
    already handed out is armed in [s'] only if it was armed, with the same
    deadline and callback, in [s]. *)
Definition ages (s s' : State) : Prop :=
  (next_timer s ≤ next_timer s')%nat ∧ clock s ≤ clock s' ∧
  ∀ t tm, (t < next_timer s)%nat → timers s' !! t = Some tm → timers s !! t = Some tm.

(** What an armed timer does in every continuation: it fires at most once,
    never before its deadline, and its firing is one run of
    [connectWebSocket] of the instance that armed it, which constructs one
    socket unless the constructor throws. *)
Definition one_attempt_at (s : State) (t : nat) (c : nat) (deadline : Z) : Prop :=
  ∀ evs s1, run evs s = Some s1 →
    (fired t evs ≤ 1)%nat ∧
    ∀ throws s2, step (Fire t throws) s1 = Some s2 →
      deadline ≤ clock s1 ∧
      s2 = run_callback (connectWebSocket c throws) (set_timers (λ m, delete t m) s1) ∧
      length (sockets s2) = (length (sockets s1) + (if throws then 0 else 1))%nat.

(** Timer [t] can fire once [dt] ms have passed. *)
Definition can_fire_after (s : State) (t : nat) (dt : Z) : Prop :=
  ∀ throws, is_Some (run [Elapse dt; Fire t throws] s).

(** The event runs the [WebSocket] constructor and the constructor throws. *)
Definition establishing_throws (e : Event) (s : State) : Prop :=
  match e with
  | Mount true => created s = true
  | Fire _ true => True
  | _ => False
  end.

(** The timers left once the event has taken its own timer, if it is one. *)
Definition consumed (e : Event) (m : gmap nat Timer) : gmap nat Timer :=
  match e with
  | Fire t _ => delete t m
  | _ => m
  end.

(** *** Inbound frames *)

Definition inbound_types : list string :=
  ["bootstrap_ok"; "snapshot"; "order_filled"; "order_pending";
   "user_switched"; "account_switched"; "error"].

Definition recognized (type : jsval) : bool :=
  existsb (strict_eq_str type) inbound_types.

(** Frames that are not text, do not parse, parse to [null], or carry a
    [type] outside the seven known ones (or none). *)
Definition discarded (data : FrameData) : bool :=
  match data with
  | NotText | Malformed => true
  | Json msg =>
      match getprop msg "type" with
      | inl _ => true
      | inr type => negb (recognized type)
      end
  end.

Definition parse_failure (e : exn) : LogEntry :=
  console_error [log_str "Failed to parse WebSocket message:"; log_exn e].

Definition not_connected_toast : Toast := toast_error (JStr "Not connected to server").

Definition switched_toast (text : string) : Toast :=
  toast_success ("Switched to " +:+ text).

(** *** Concrete frames and traces *)

(** The state a trace leads to from a freshly loaded page without [window]
    ([init None] itself if the trace cannot happen). *)
Definition after (evs : list Event) : State :=
  default (init None) (run evs (init None)).

Definition user_default : jsval := JObj [("id", JNum 1); ("username", JStr "default")].
Definition user_alice : jsval := JObj [("id", JNum 2); ("username", JStr "alice")].
Definition account_paper : jsval :=
  JObj [("id", JNum 7); ("user_id", JNum 1); ("name", JStr "paper")].
Definition overview_10000 : jsval :=
  JObj [("total_assets", JNum 10000); ("positions_value", JNum 0)].

Definition fields_bootstrap_ok : list (string * jsval) :=
  [("type", JStr "bootstrap_ok"); ("user", user_default); ("account", account_paper)].
Definition fields_snapshot : list (string * jsval) :=
  [("type", JStr "snapshot"); ("overview", overview_10000)].
Definition fields_snapshot_no_overview : list (string * jsval) :=
  [("type", JStr "snapshot")].
Definition fields_user_switched : list (string * jsval) :=
  [("type", JStr "user_switched"); ("user", user_alice)].
Definition fields_user_switched_no_user : list (string * jsval) :=
  [("type", JStr "user_switched")].

(** Connected, bootstrapped, first snapshot received. *)
Definition session_up : list Event :=
  [Mount false; WsOpen 0;
   WsMessage 0 (Json (JObj fields_bootstrap_ok));
   WsMessage 0 (Json (JObj fields_snapshot))].

(** ... and then the connection drops. *)
Definition session_lost : list Event := session_up ++ [WsClose 0 1006].

(** The effect runs, is cleaned up and runs again (reusing socket 0, whose
    listeners belong to instance 0); socket 0 fails with 1006, so instance 0
    arms timer 1; within the 3 s the effect is cleaned up and runs a third
    time, finds no singleton and opens socket 1; then timer 1 comes due and
    instance 0 opens socket 2. *)
Definition remount_race : list Event :=
  [Mount false; Unmount; Mount false; WsClose 0 1006; Unmount; Mount false;
   Elapse 3000; Fire 1 false].

(* ===================================================================== *)
(** ** More vocabulary: what computations preserve, what states satisfy *)
(* ===================================================================== *)

(** *** Properties of computations *)

Definition preserves {A} (I : State → Prop) (m : M A) : Prop :=
  ∀ s, I s → I (m s).2.

Definition returns {A} (m : M A) : Prop := ∀ s, ∃ a, (m s).1 = inr a.

(** No exception has ever escaped a callback. *)
Definition calm (s : State) : Prop := ∀ e, uncaught e ∉ console s.

Definition is_bootstrap (m : Outbound) : bool :=
  match m with
  | bootstrap _ _ => true
  | _ => false
  end.

(** What a socket has been handed so far: nothing, and then it is not OPEN;
    or the bootstrap message of [handleOpen] first and no other bootstrap
    after it, and then it has left CONNECTING. *)
Definition stream_ok (k : WebSocket) : Prop :=
  match sent k with
  | [] => readyState k ≠ OPEN
  | m :: rest =>
      m = bootstrap "default" 10000 ∧ readyState k ≠ CONNECTING ∧
      Forall (λ x, is_bootstrap x = false) rest
  end.

Definition streams_ok (s : State) : Prop :=
  ∀ w k, sockets s !! w = Some k → stream_ok k.

(** The URL [resolveWsUrl] answers in this state. *)
Definition wsUrl_at (s : State) : exn + string := (resolveWsUrl s).1.

Definition urls_ok (s : State) : Prop :=
  ∀ w k, sockets s !! w = Some k → wsUrl_at s = inr (url k).

(** A reference that is null or names a socket that is not CLOSED. *)
Definition ref_live (s : State) (r : option nat) : Prop :=
  match r with
  | None => True
  | Some w =>
      match readyState <$> sockets s !! w with
      | Some st => st ≠ CLOSED
      | None => False
      end
  end.

Definition refs_live (s : State) : Prop :=
  ref_live s (__WS_SINGLETON__ s) ∧ ref_live s (wsRef s).

(** The [type] of an inbound frame, when it parses to something that
    carries a string there. *)
Definition frame_type (data : FrameData) : option string :=
  match data with
  | Json msg =>
      match getprop msg "type" with
      | inr (JStr t) => Some t
      | _ => None
      end
  | _ => None
  end.

(** The event delivers a frame whose [type] is one of [types]. *)
Definition delivers (types : list string) (e : Event) : bool :=
  match e with
  | WsMessage _ data =>
      match frame_type data with
      | Some t => bool_decide (t ∈ types)
      | None => false
      end
  | _ => false
  end.

(** The notification shown for an order event. *)
Definition order_toast (type : string) : Toast :=
  if bool_decide (type = "order_filled") then toast_success "Order filled"
  else toast_plain "Order placed, waiting for fill" icon_hourglass.

(** What a user callback puts on the wire, and the notification it shows
    when it does. *)
Definition intent_frame (e : Event) : option Outbound :=
  match e with
  | ClickSwitchUser username => Some (switch_user username)
  | AccountUpdated => Some get_snapshot
  | _ => None
  end.

Definition intent_toasts (e : Event) : list Toast :=
  match e with
  | ClickSwitchUser _ => [toast_plain "Switching account..." icon_cycle]
  | _ => []
  end.

(** The sockets carrying the listeners of effect instance [c] that hold or
    are acquiring a connection. *)
Definition connections_of (s : State) (c : nat) : nat :=
  length (filter (λ k, in_flight k = true ∧ handlers k = Some c) (sockets s)).

(** Every armed timer is due within 5 s. *)
Definition timers_bounded (s : State) : Prop :=
  ∀ t tm, timers s !! t = Some tm → due tm ≤ clock s + 5000.

(* ===================================================================== *)
(** ** TradingDataView.tsx: how a table loads its pages *)
(* ===================================================================== *)

Module TableLoader.

(** The query [loadData] hands to [getAIDecisionsPaginated] (and to its
    three siblings): the account and [{ page, page_size }]. *)
Record Request : Type := mkRequest {
  account_id : Z;
  page : Z;
  page_size : Z
}.

(** What the controls and the rows read of a [PaginatedResponse]. *)
Record Response : Type := mkResponse {
  items : list jsval;
  total_pages : Z
}.

(** One table component: the [accountId] prop, the cells [page], [data]
    and [loading], the requests awaiting their answer in the order they
    were issued, whether the effect has run yet, and the failure
    notifications shown so far. *)
Record Table : Type := mkTable {
  accountId : Z;
  cursor : Z;
  data : option Response;
  loading : bool;
  pending : list Request;
  effect_ran : bool;
  failures : nat
}.

(** [useState(1)], [useState(null)], [useState(false)]; [pageSize] is the
    constant [useState(20)]. *)
Definition initial (account : Z) : Table := mkTable account 1 None false [] false 0.

Definition pageSize : Z := 20.

(** What [PaginationControls] is handed. *)
Definition controls (t : Table) : Pagination.Table :=
  Pagination.mkTable (cursor t) (total_pages <$> data t) (loading t).

(** [loadData] up to its [await]: [setLoading(true)] and the request for
    the page this render's closure holds. *)
Definition loadData (t : Table) : Table :=
  mkTable (accountId t) (cursor t) (data t) true
    (pending t ++ [mkRequest (accountId t) (cursor t) pageSize])
    (effect_ran t) (failures t).

Inductive Event : Type :=
| Mount                                   (* the effect's first run *)
| SetAccount (account : Z)                (* the parent passes another [accountId] *)
| Click (b : Pagination.Button)
| Resolve (i : nat) (r : Response)        (* the [i]-th pending request is answered *)
| Reject (i : nat).                       (* ... or fails *)

(** [None]: the event cannot happen.  The effect runs after the first
    render and again whenever [accountId] or [page] differ from the
    previous render's; a disabled button swallows its click. *)
Definition step (e : Event) (t : Table) : option Table :=
  match e with
  | Mount =>
      if effect_ran t then None
      else Some (loadData (mkTable (accountId t) (cursor t) (data t) (loading t)
                             (pending t) true (failures t)))
  | SetAccount account =>
      if negb (effect_ran t) then None
      else if bool_decide (account = accountId t) then Some t
      else Some (loadData (mkTable account (cursor t) (data t) (loading t)
                             (pending t) (effect_ran t) (failures t)))
  | Click b =>
      if Pagination.disabled b (controls t) then Some t
      else
        let p := Pagination.requested b (controls t) in
        if bool_decide (p = cursor t) then Some t
        else Some (loadData (mkTable (accountId t) p (data t) (loading t)
                               (pending t) (effect_ran t) (failures t)))
  | Resolve i r =>
      match pending t !! i with
      | Some _ =>
          Some (mkTable (accountId t) (cursor t) (Some r) false
                  (delete i (pending t)) (effect_ran t) (failures t))
      | None => None
      end
  | Reject i =>
      match pending t !! i with
      | Some _ =>
          Some (mkTable (accountId t) (cursor t) (data t) false
                  (delete i (pending t)) (effect_ran t) (S (failures t)))
      | None => None
      end
  end.

Fixpoint run (evs : list Event) (t : Table) : option Table :=
  match evs with
  | [] => Some t
  | e :: rest =>
      match step e t with
      | Some t' => run rest t'
      | None => None
      end
  end.

Definition changes_account (e : Event) : bool :=
  match e with
  | SetAccount _ => true
  | _ => false
  end.

(** Nothing in flight and the controls live, or exactly the request for
    the cursor's page in flight and the controls disabled. *)
Definition at_rest_or_loading (t : Table) : Prop :=
  (pending t = [] ∧ loading t = false) ∨
  (pending t = [mkRequest (accountId t) (cursor t) pageSize] ∧ loading t = true).

End TableLoader.

(* ===================================================================== *)
(** ** BalanceChartView.tsx: loading the balance history *)
(* ===================================================================== *)

Module BalanceChart.

Inductive TimeRange : Type := range_24h | range_1w | range_30d | range_all.
Inductive Interval : Type := interval_6m | interval_1h | interval_1d.

#[global] Instance TimeRange_eq_dec : EqDecision TimeRange.
Proof. solve_decision. Defined.
#[global] Instance Interval_eq_dec : EqDecision Interval.
Proof. solve_decision. Defined.

(** The argument of [getBalanceHistory]. *)
Record Request : Type := mkRequest {
  account_id : Z;
  time_range : TimeRange;
  interval : Interval;
  end_time : option string;        (* [None]: [undefined] *)
  limit : Z
}.

Record Response : Type := mkResponse {
  points : list jsval;             (* [result.data] *)
  has_more : bool;
  next_end_time : option string    (* [None]: [null] or missing *)
}.

(** A [loadData(append)] call that is awaiting its answer. *)
Record Call : Type := mkCall {
  query : Request;
  append : bool
}.

(** The component: the [accountId] prop, its six cells, the calls awaiting
    their answer in the order they were made, whether the effect has run
    yet, and the failure notifications shown so far. *)
Record Chart : Type := mkChart {
  accountId : Z;
  timeRange : TimeRange;
  granularity : Interval;          (* the cell named [interval] *)
  data : list jsval;
  loading : bool;
  hasMore : bool;
  endTime : option string;
  pending : list Call;
  effect_ran : bool;
  failures : nat
}.

Definition initial (account : Z) : Chart :=
  mkChart account range_24h interval_6m [] false false None [] false 0.

(** [if (result.next_end_time)]: a string counts unless it is empty. *)
Definition given (t : option string) : bool :=
  match t with
  | Some EmptyString | None => false
  | Some _ => true
  end.

(** [loadData(append)] up to its [await]. *)
Definition loadData (append : bool) (c : Chart) : Chart :=
  mkChart (accountId c) (timeRange c) (granularity c) (data c) true (hasMore c)
    (endTime c)
    (pending c ++
       [mkCall (mkRequest (accountId c) (timeRange c) (granularity c)
                  (if append then endTime c else None) 100) append])
    (effect_ran c) (failures c).

(** [setEndTime(undefined)] *)
Definition forget_endTime (c : Chart) : Chart :=
  mkChart (accountId c) (timeRange c) (granularity c) (data c) (loading c) (hasMore c)
    None (pending c) (effect_ran c) (failures c).

(** The effect on [accountId], [timeRange], [interval]; [handleRefresh]
    has the same two statements.  The request is built from this render's
    values, and with [append] false it carries no [end_time]. *)
Definition reload (c : Chart) : Chart := loadData false (forget_endTime c).

Inductive Event : Type :=
| Mount
| SetAccount (account : Z)
| ClickTimeRange (r : TimeRange)
| ClickInterval (i : Interval)
| ClickLoadMore
| ClickRefresh
| Resolve (i : nat) (r : Response)
| Reject (i : nat).

(** After the [await]: the [try] branch and [finally]. *)
Definition resolved (k : Call) (r : Response) (i : nat) (c : Chart) : Chart :=
  mkChart (accountId c) (timeRange c) (granularity c)
    (if append k then points r ++ data c else points r)
    false (has_more r)
    (if given (next_end_time r) then next_end_time r else endTime c)
    (delete i (pending c)) (effect_ran c) (failures c).

(** ... the [catch] branch and [finally]. *)
Definition rejected (i : nat) (c : Chart) : Chart :=
  mkChart (accountId c) (timeRange c) (granularity c) (data c) false (hasMore c)
    (endTime c) (delete i (pending c)) (effect_ran c) (S (failures c)).

(** [None]: the event cannot happen.  The effect runs after the first
    render, before any click is handled, and again whenever [accountId],
    [timeRange] or [interval] differ from the previous render's; a disabled
    button swallows its click. *)
Definition step (e : Event) (c : Chart) : option Chart :=
  match e, effect_ran c with
  | Mount, false =>
      Some (reload (mkChart (accountId c) (timeRange c) (granularity c) (data c)
                      (loading c) (hasMore c) (endTime c) (pending c) true
                      (failures c)))
  | Mount, true => None
  | _, false => None
  | SetAccount account, true =>
      if bool_decide (account = accountId c) then Some c
      else Some (reload (mkChart account (timeRange c) (granularity c) (data c)
                           (loading c) (hasMore c) (endTime c) (pending c)
                           (effect_ran c) (failures c)))
  | ClickTimeRange r, true =>
      if loading c then Some c
      else if bool_decide (r = timeRange c) then Some c
      else Some (reload (mkChart (accountId c) r (granularity c) (data c)
                           (loading c) (hasMore c) (endTime c) (pending c)
                           (effect_ran c) (failures c)))
  | ClickInterval i, true =>
      if loading c then Some c
      else if bool_decide (i = granularity c) then Some c
      else Some (reload (mkChart (accountId c) (timeRange c) i (data c)
                           (loading c) (hasMore c) (endTime c) (pending c)
                           (effect_ran c) (failures c)))
  | ClickLoadMore, true =>
      if negb (hasMore c) || loading c then Some c
      else if hasMore c && negb (loading c) then Some (loadData true c)
      else Some c
  | ClickRefresh, true =>
      if loading c then Some c else Some (reload c)
  | Resolve i r, true =>
      match pending c !! i with
      | Some k => Some (resolved k r i c)
      | None => None
      end
  | Reject i, true =>
      match pending c !! i with
      | Some _ => Some (rejected i c)
      | None => None
      end
  end.

Fixpoint run (evs : list Event) (c : Chart) : option Chart :=
  match evs with
  | [] => Some c
  | e :: rest =>
      match step e c with
      | Some c' => run rest c'
      | None => None
      end
  end.

Definition changes_account (e : Event) : bool :=
  match e with
  | SetAccount _ => true
  | _ => false
  end.

(** Events that page back in time or answer a call, as opposed to the ones
    that start over. *)
Definition is_click (e : Event) : bool :=
  match e with
  | ClickTimeRange _ | ClickInterval _ | ClickLoadMore | ClickRefresh => true
  | _ => false
  end.

Definition pages_back (e : Event) : bool :=
  match e with
  | ClickLoadMore | Resolve _ _ | Reject _ => true
  | _ => false
  end.

(** The one call in flight: for the current selection, 100 points, and
    either a reload without [end_time] or a Load More from the current
    [endTime], made while [hasMore] was on. *)
Definition in_flight (c : Chart) (k : Call) : Prop :=
  query k = mkRequest (accountId c) (timeRange c) (granularity c)
              (if append k then endTime c else None) 100 ∧
  (append k = true → hasMore c = true).

Definition at_rest_or_loading (c : Chart) : Prop :=
  (pending c = [] ∧ loading c = false) ∨
  (∃ k, pending c = [k] ∧ loading c = true ∧ in_flight c k).

End BalanceChart.

(* ===================================================================== *)
(** ** main.tsx and Sidebar.tsx: which page is shown *)
(* ===================================================================== *)

Module Navigation.

(** [PAGE_TITLES] *)
Definition PAGE_TITLES : list (string * jsval) :=
  [("chart", JStr "Balance Chart"); ("data", JStr "Trading Data");
   ("manual", JStr "Manual Trading"); ("okx", JStr "OKX Account")].

(** The names an object literal inherits from [Object.prototype]. *)
Definition Object_prototype : list string :=
  ["constructor"; "hasOwnProperty"; "isPrototypeOf"; "propertyIsEnumerable";
   "toLocaleString"; "toString"; "valueOf"; "__proto__";
   "__defineGetter__"; "__defineSetter__"; "__lookupGetter__"; "__lookupSetter__"].

(** What an indexing of [PAGE_TITLES] finds. *)
Inductive Property : Type :=
| own (v : jsval)
| inherited (name : string)
| missing.

(** [PAGE_TITLES[k]] *)
Definition lookup (k : string) : Property :=
  match own_property k PAGE_TITLES with
  | Some v => own v
  | None => if bool_decide (k ∈ Object_prototype) then inherited k else missing
  end.

(** [PAGE_TITLES[currentPage] ?? PAGE_TITLES.comprehensive] *)
Definition pageTitle (currentPage : string) : Property :=
  match lookup currentPage with
  | own JUndefined | own JNull | missing => lookup "comprehensive"
  | found => found
  end.

Inductive View : Type :=
| BalanceChartView | TradingDataView | ManualTradingView | OKXAccountView.

(** The four conditionals inside [<main>]. *)
Definition views (currentPage : string) (account : jsval) : list View :=
  (if bool_decide (currentPage = "chart") && truthy account then [BalanceChartView] else []) ++
  (if bool_decide (currentPage = "data") && truthy account then [TradingDataView] else []) ++
  (if bool_decide (currentPage = "manual") && truthy account then [ManualTradingView] else []) ++
  (if bool_decide (currentPage = "okx") && truthy account then [OKXAccountView] else []).

(** A button of the sidebar: the page its [onClick] hands to
    [onPageChange] ([None] for Settings, which opens the dialog) and its
    [title] attribute. *)
Record NavButton : Type := mkNavButton {
  target : option string;
  title : string
}.

Inductive Bar : Type := Desktop | Mobile.

Definition buttons (bar : Bar) : list NavButton :=
  match bar with
  | Desktop =>
      [mkNavButton (Some "chart") "Balance Chart"; mkNavButton (Some "data") "Trading Data";
       mkNavButton (Some "manual") "Manual Trading"; mkNavButton (Some "okx") "OKX Account";
       mkNavButton None "Settings"]
  | Mobile =>
      [mkNavButton (Some "chart") "Balance Chart"; mkNavButton (Some "data") "Trading Data";
       mkNavButton (Some "manual") "Manual Trading"; mkNavButton (Some "okx") "OKX Account";
       mkNavButton None "Settings"]
  end.

(** [currentPage === '...'] in a button's class name. *)
Definition highlighted (currentPage : string) (b : NavButton) : bool :=
  match target b with
  | Some p => bool_decide (currentPage = p)
  | None => false
  end.

(** [currentPage] of [App] and [settingsOpen] of [Sidebar]. *)
Record Nav : Type := mkNav {
  currentPage : string;
  settingsOpen : bool
}.

(** [useState<string>('chart')], [useState(false)] *)
Definition initial : Nav := mkNav "chart" false.

Inductive Event : Type :=
| Click (bar : Bar) (i : nat)          (* the [i]-th button of a bar *)
| SettingsOpenChange (open : bool).    (* the dialog's [onOpenChange] *)

Definition step (e : Event) (n : Nav) : option Nav :=
  match e with
  | Click bar i =>
      match buttons bar !! i with
      | Some b =>
          match target b with
          | Some p => Some (mkNav p (settingsOpen n))
          | None => Some (mkNav (currentPage n) true)
          end
      | None => None
      end
  | SettingsOpenChange open => Some (mkNav (currentPage n) open)
  end.

Fixpoint run (evs : list Event) (n : Nav) : option Nav :=
  match evs with
  | [] => Some n
  | e :: rest =>
      match step e n with
      | Some n' => run rest n'
      | None => None
      end
  end.

End Navigation.

(* ===================================================================== *)
(** ** More concrete frames and traces *)
(* ===================================================================== *)

(** A page served over https from another host. *)
Definition location_remote : Location :=
  mkLocation "trade.example.com" "https:" "trade.example.com".

Definition after_at (loc : option Location) (evs : list Event) : State :=
  default (init loc) (run evs (init loc)).

Definition fields_order_filled : list (string * jsval) :=
  [("type", JStr "order_filled"); ("order_id", JNum 42)].

(** An error frame that carries no [message]. *)
Definition fields_error : list (string * jsval) := [("type", JStr "error")].

(** Mounted, then cleaned up. *)
Definition unmounted : list Event := [Mount false; Unmount].

(** The first page of three arrives and the user pages forward. *)
Definition table_trace : list TableLoader.Event :=
  [TableLoader.Mount; TableLoader.Resolve 0 (TableLoader.mkResponse [] 3);
   TableLoader.Click Pagination.Next].

(** The first window arrives, with more to come; the user pages back. *)
Definition chart_trace : list BalanceChart.Event :=
  [BalanceChart.Mount;
   BalanceChart.Resolve 0
     (BalanceChart.mkResponse [JNum 3; JNum 4] true (Some "2025-01-01T00:00:00"));
   BalanceChart.ClickLoadMore].

(** ... the earlier window arrives, a second Load More fails. *)
Definition chart_history : list BalanceChart.Event :=
  [BalanceChart.ClickLoadMore;
   BalanceChart.Resolve 0 (BalanceChart.mkResponse [JNum 1; JNum 2] true None);
   BalanceChart.ClickLoadMore; BalanceChart.Reject 0].

Definition chart_after (evs : list BalanceChart.Event) : BalanceChart.Chart :=
  default (BalanceChart.initial 7) (BalanceChart.run evs (BalanceChart.initial 7)).

Definition table_after (evs : list TableLoader.Event) : TableLoader.Table :=
  default (TableLoader.initial 7) (TableLoader.run evs (TableLoader.initial 7)).

Definition nav_trace : list Navigation.Event :=
  [Navigation.Click Navigation.Desktop 1; Navigation.Click Navigation.Mobile 4;
   Navigation.SettingsOpenChange false; Navigation.Click Navigation.Mobile 3].

(* ===================================================================== *)
(** ** Frame lemmas: handlers that only talk *)
(* ===================================================================== *)

Lemma quiet_ret {A} (a : A) : quiet (mret a).
Proof. done. Qed.

Lemma quiet_throw {A} (e : exn) : quiet (@throw A e).
Proof. done. Qed.

Lemma quiet_lift {A} (r : exn + A) : quiet (lift r).
Proof. done. Qed.

Lemma quiet_gets {A} (f : State → A) : quiet (gets f).
Proof. done. Qed.

Lemma quiet_bind {A B} (m : M A) (k : A → M B) :
  quiet m → (∀ a, quiet (k a)) → quiet (m ≫= k).
Proof.
  intros Hm Hk s. unfold mbind, M_bind.
  specialize (Hm s). destruct (m s) as [[e|a] s1]; simpl in *; [done|].
  by rewrite Hk.
Qed.

Lemma quiet_try_catch {A} (m : M A) (h : exn → M A) :
  quiet m → (∀ e, quiet (h e)) → quiet (try_catch m h).
Proof.
  intros Hm Hh s. unfold try_catch.
  specialize (Hm s). destruct (m s) as [[e|a] s1]; simpl in *; [|done].
  by rewrite Hh.
Qed.

Lemma quiet_when (b : bool) (m : M unit) : quiet m → quiet (when b m).
Proof. destruct b; [done | intros _; apply quiet_ret]. Qed.

Lemma quiet_console_log e : quiet (console_log e).
Proof. done. Qed.

Lemma quiet_toast t : quiet (toast t).
Proof. done. Qed.

Lemma quiet_setUser v : quiet (setUser v).
Proof. done. Qed.
Lemma quiet_setAccount v : quiet (setAccount v).
Proof. done. Qed.
Lemma quiet_setOverview v : quiet (setOverview v).
Proof. done. Qed.
Lemma quiet_closure c : quiet (closure c).
Proof. done. Qed.

Lemma quiet_send w m : quiet (send w m).
Proof.
  intros s. unfold send.
  destruct (sockets s !! w) as [k|] eqn:Hk; [|done].
  destruct k as [u r h o]; simpl. destruct r; try done.
  unfold wiring; simpl.
  rewrite list_fmap_insert; simpl.
  rewrite list_insert_id; [done|]. by rewrite list_lookup_fmap, Hk.
Qed.

Lemma quiet_send_on r m : quiet (send_on r m).
Proof. destruct r; [apply quiet_send | apply quiet_throw]. Qed.

Create HintDb quiet.
#[export] Hint Resolve quiet_ret quiet_throw quiet_lift quiet_gets quiet_console_log
  quiet_toast quiet_setUser quiet_setAccount quiet_setOverview quiet_closure
  quiet_send_on quiet_when : quiet.

Ltac quiet_step :=
  first
    [ apply quiet_bind; [|intros ?]
    | apply quiet_try_catch; [|intros ?]
    | progress auto with quiet
    | match goal with
      | |- quiet (if ?b then _ else _) => destruct b
      | |- quiet (match ?x with _ => _ end) => destruct x
      end ].

Lemma quiet_handleOpen c : quiet (handleOpen c).
Proof. unfold handleOpen. repeat quiet_step. Qed.

Lemma quiet_handleMessage c d : quiet (handleMessage c d).
Proof. unfold handleMessage. repeat quiet_step. Qed.

Lemma quiet_handleError c : quiet (handleError c).
Proof. unfold handleError. repeat quiet_step. Qed.

Lemma quiet_switchUser u : quiet (switchUser u).
Proof. unfold switchUser. repeat quiet_step. Qed.

Lemma quiet_handleAccountUpdated : quiet handleAccountUpdated.
Proof. unfold handleAccountUpdated. repeat quiet_step. Qed.

(* ===================================================================== *)
(** ** What connecting and closing do to the state *)
(* ===================================================================== *)

Lemma resolveWsUrl_reads s : ∃ u, resolveWsUrl s = (inr u, s).
Proof.
  unfold resolveWsUrl, mbind, M_bind, gets.
  destruct (location s) as [l|]; [|by eexists].
  destruct (_ || _); by eexists.
Qed.

Lemma connectWebSocket_constructs c s :
  ∃ u, connectWebSocket c false s =
    (inr tt,
     set_sockets (λ l, l ++ [mkWebSocket u CONNECTING (Some c) []])
       (set_wsRef (Some (length (sockets s)))
          (set_singleton (Some (length (sockets s)))
             (set_effects (with_ws c (Some (length (sockets s)))) s)))).
Proof.
  destruct (resolveWsUrl_reads s) as [u Hu]. exists u.
  unfold connectWebSocket, try_catch, connectWebSocket_body, mbind, M_bind.
  rewrite Hu. simpl.
  unfold set_sockets at 1; simpl.
  rewrite lookup_app_r, Nat.sub_diag by done. simpl.
  unfold set_sockets, set_wsRef, set_singleton, set_effects, with_ws; simpl.
  do 2 f_equal.
  replace (length (sockets s)) with (length (sockets s) + 0)%nat at 1 by lia.
  by rewrite insert_app_r.
Qed.

Lemma connectWebSocket_catches c s :
  connectWebSocket c true s =
    (inr tt,
     set_effects (with_reconnectTimer c (Some (next_timer s)))
       (set_next_timer (S (next_timer s))
          (set_timers (λ m, <[next_timer s := mkTimer (clock s + 5000) c]> m)
             (set_console
                (λ l, l ++ [console_error [log_str "Failed to create WebSocket:";
                                           log_exn DOMException]]) s)))).
Proof.
  destruct (resolveWsUrl_reads s) as [u Hu].
  unfold connectWebSocket, try_catch, connectWebSocket_body, mbind, M_bind.
  by rewrite Hu.
Qed.

Lemma handleClose_normal c code s :
  abnormal code = false → handleClose c code s = (inr tt, after_close_refs c s).
Proof.
  unfold abnormal. intros H.
  unfold handleClose, after_close_refs, closure_of, mbind, M_bind, when, gets, closure, modify; simpl.
  rewrite H. by case_bool_decide.
Qed.

Lemma handleClose_abnormal c code s :
  abnormal code = true →
  handleClose c code s =
    (inr tt,
     set_effects (with_reconnectTimer c (Some (next_timer s)))
       (set_next_timer (S (next_timer s))
          (set_timers (λ m, <[next_timer s := mkTimer (clock s + 3000) c]> m)
             (after_close_refs c s)))).
Proof.
  unfold abnormal. intros H.
  unfold handleClose, after_close_refs, closure_of, mbind, M_bind, when, gets, closure, modify; simpl.
  rewrite H. by case_bool_decide.
Qed.

(* ===================================================================== *)
(** ** The invariant holds in every reachable state *)
(* ===================================================================== *)

Lemma wired_wiring s s' w : wiring s' = wiring s → wired s' w = wired s w.
Proof.
  unfold wiring, wired. intros [= _ H _ _ _ _ _ _].
  by rewrite <- !list_lookup_fmap, H.
Qed.

Lemma wf_ext s s' :
  (∀ w, wired s' w = wired s w) → effects s' = effects s → mounted s' = mounted s →
  timers s' = timers s → next_timer s' = next_timer s → wf s → wf s'.
Proof.
  intros Hw He Hm Ht Hn [].
  split; intros *; rewrite ?Hw, ?He, ?Hm, ?Ht, ?Hn; eauto.
  intros Htm. destruct (wf_armed0 _ _ Htm) as [? Hc]. split; [done|].
  intros w r. rewrite Hw. apply Hc.
Qed.

Lemma wf_wiring s s' : wiring s' = wiring s → wf s → wf s'.
Proof.
  intros H. apply wf_ext; [intros; by apply wired_wiring|..];
    unfold wiring in H; by injection H.
Qed.

Lemma wf_quiet (m : M unit) s : quiet m → wf s → wf (run_callback m s).
Proof.
  intros Hq Hwf. unfold run_callback. specialize (Hq s).
  destruct (m s) as [[e|[]] s']; simpl in *; eapply wf_wiring; eauto.
Qed.

Lemma wf_init loc : wf (init loc).
Proof.
  split; simpl; try done; try lia.
  - intros t [? ?]. by rewrite lookup_empty in *.
Qed.

Lemma lookup_with_ws l c v c' :
  with_ws c v l !! c' =
  if decide (c' = c) then (λ k, mkClosure v (reconnectTimer k)) <$> l !! c else l !! c'.
Proof.
  unfold with_ws. destruct (l !! c) as [k|] eqn:Hk; case_decide; subst; simpl; try done.
  - apply list_lookup_insert_eq. by eapply lookup_lt_Some.
  - by apply list_lookup_insert_ne.
Qed.

Lemma lookup_with_reconnectTimer l c v c' :
  with_reconnectTimer c v l !! c' =
  if decide (c' = c) then (λ k, mkClosure (ws k) v) <$> l !! c else l !! c'.
Proof.
  unfold with_reconnectTimer. destruct (l !! c) as [k|] eqn:Hk; case_decide; subst; simpl; try done.
  - apply list_lookup_insert_eq. by eapply lookup_lt_Some.
  - by apply list_lookup_insert_ne.
Qed.

Lemma length_with_ws l c v : length (with_ws c v l) = length l.
Proof. unfold with_ws. destruct (l !! c); [apply length_insert | done]. Qed.

Lemma length_with_reconnectTimer l c v : length (with_reconnectTimer c v l) = length l.
Proof. unfold with_reconnectTimer. destruct (l !! c); [apply length_insert | done]. Qed.

Lemma wired_set_readyState s w r w' :
  wired (set_readyState w r s) w' =
  if decide (w' = w) then (λ p, (r, p.2)) <$> wired s w else wired s w'.
Proof.
  unfold wired, set_readyState; simpl.
  destruct (sockets s !! w) as [k|] eqn:Hk; case_decide; subst; simpl; try done.
  - by rewrite list_lookup_insert_eq by (by eapply lookup_lt_Some).
  - by rewrite list_lookup_insert_ne.
  - by rewrite Hk.
Qed.

Lemma wired_construct s k w :
  wired (set_sockets (λ l, l ++ [k]) s) w =
  if decide (w = length (sockets s)) then Some (readyState k, handlers k) else wired s w.
Proof.
  unfold wired; simpl. case_decide; subst.
  - by rewrite lookup_app_r, Nat.sub_diag.
  - destruct (decide (w < length (sockets s))%nat).
    + by rewrite lookup_app_l.
    + rewrite !(lookup_ge_None_2) ; [done| lia |]. rewrite length_app; simpl; lia.
Qed.

(** A socket moving between live states keeps the invariant. *)
Lemma wf_set_readyState s w r r0 h :
  wf s → wired s w = Some (r0, h) → r0 ≠ CLOSED → wf (set_readyState w r s).
Proof.
  intros [] Hw Hr0. split; try done.
  - intros w' r' h'. rewrite wired_set_readyState. case_decide; subst.
    + rewrite Hw; simpl. intros [= <- <-]. eauto.
    + eauto.
  - intros w' r' c. rewrite wired_set_readyState. case_decide; subst.
    + rewrite Hw; simpl. intros [= <- ->] _. eauto.
    + eauto.
  - intros t tm Htm. destruct (wf_armed0 _ _ Htm) as [Ht Hc]. split; [done|].
    intros w' r'. rewrite wired_set_readyState. case_decide; subst.
    + rewrite Hw; simpl. intros [= <- ->]. by apply Hc in Hw.
    + eauto.
Qed.

(** Arming a timer for an instance that has nothing alive and nothing armed. *)
Lemma wf_arm s c d :
  wf s → (c < length (effects s))%nat → idle s c →
  wf (set_effects (with_reconnectTimer c (Some (next_timer s)))
        (set_next_timer (S (next_timer s))
           (set_timers (λ m, <[next_timer s := mkTimer d c]> m) s))).
Proof.
  intros [] Hc [Hclosed Hnone].
  split; simpl; rewrite ?length_with_reconnectTimer; try done; try lia.
  - intros t. rewrite lookup_insert. case_decide; [lia|].
    intros Hin%wf_fresh0. lia.
  - intros w r c' Hw Hr. rewrite lookup_with_reconnectTimer.
    specialize (wf_current0 _ _ _ Hw Hr).
    case_decide; subst; [|done].
    by destruct (effects s !! c).
  - intros t tm. rewrite lookup_insert. case_decide; subst.
    + intros [= <-]; simpl. rewrite lookup_with_reconnectTimer, decide_True by done.
      destruct (lookup_lt_is_Some_2 _ _ Hc) as [k ->]. split; [done|]. apply Hclosed.
    + intros Htm. destruct (wf_armed0 _ _ Htm) as [Ht Hcl].
      rewrite lookup_with_reconnectTimer, decide_False; [done|]. by eapply Hnone.
  - intros c' k t. rewrite lookup_with_reconnectTimer. case_decide; subst.
    + destruct (effects s !! c) as [k0|]; [|done]. intros [= <-] [= <-]; simpl.
      split; [lia|]. rewrite lookup_insert_eq. by intros tm [= <-].
    + intros Hk Ht. destruct (wf_handle0 _ _ _ Hk Ht) as [Hlt Hcb].
      split; [lia|]. rewrite lookup_insert_ne by lia. done.
Qed.

(** Constructing a socket for an instance that has nothing alive and nothing armed. *)
Lemma wf_construct s c u :
  wf s → (c < length (effects s))%nat → idle s c →
  wf (set_sockets (λ l, l ++ [mkWebSocket u CONNECTING (Some c) []])
        (set_wsRef (Some (length (sockets s)))
           (set_singleton (Some (length (sockets s)))
              (set_effects (with_ws c (Some (length (sockets s)))) s)))).
Proof.
  intros [] Hc [Hclosed Hnone].
  split; simpl; rewrite ?length_with_ws; try done.
  - intros w r h. rewrite wired_construct; simpl. case_decide; subst.
    + intros [= <- <-]. eauto.
    + apply wf_listeners0.
  - intros w r c'. rewrite wired_construct; simpl.
    rewrite lookup_with_ws. case_decide; subst.
    + intros [= <- <-] _. rewrite decide_True by done.
      by destruct (lookup_lt_is_Some_2 _ _ Hc) as [k ->].
    + intros Hw Hr. case_decide; subst; [by apply Hclosed in Hw|].
      by eapply wf_current0.
  - intros t tm Htm. destruct (wf_armed0 _ _ Htm) as [Ht Hcl].
    rewrite lookup_with_ws, decide_False by (by eapply Hnone). split; [done|].
    intros w r. rewrite wired_construct; simpl. case_decide; subst.
    + intros [= <- Heq]. by apply Hnone in Htm.
    + apply Hcl.
  - intros c' k t. rewrite lookup_with_ws. case_decide; subst; [|by apply wf_handle0].
    destruct (effects s !! c) as [k0|] eqn:Hk0; [|done]. intros [= <-]; simpl.
    by apply wf_handle0.
Qed.

Lemma wf_connectWebSocket s c throws :
  wf s → (c < length (effects s))%nat → idle s c →
  wf (run_callback (connectWebSocket c throws) s).
Proof.
  intros Hwf Hc Hidle. unfold run_callback. destruct throws.
  - rewrite connectWebSocket_catches.
    eapply wf_ext, (wf_arm s c (clock s + 5000)); done.
  - destruct (connectWebSocket_constructs c s) as [u ->].
    by apply wf_construct.
Qed.

Lemma quiet_dispatch w (h : nat → M unit) : (∀ c, quiet (h c)) → quiet (dispatch w h).
Proof. intros Hh. unfold dispatch. repeat quiet_step. Qed.

Lemma wf_set_mounted s v :
  wf s → (∀ c, v = Some c → (c < length (effects s))%nat) → wf (set_mounted v s).
Proof. intros [] Hv. by split. Qed.

Lemma wf_delete_timer s t : wf s → wf (set_timers (λ m, delete t m) s).
Proof.
  intros []. split; simpl; try done.
  - intros t'. rewrite lookup_delete. case_decide; [by intros [? ?]|]. apply wf_fresh0.
  - intros t' tm. rewrite lookup_delete. case_decide; [done|]. apply wf_armed0.
  - intros c k t' Hk Ht'. destruct (wf_handle0 _ _ _ Hk Ht') as [Hlt Hcb].
    split; [done|]. intros tm. rewrite lookup_delete. case_decide; [done|]. apply Hcb.
Qed.

Lemma wf_append_closure s v :
  wf s → wf (set_effects (λ l, l ++ [mkClosure v None]) s).
Proof.
  intros []. split; simpl; rewrite ?length_app; simpl; try done.
  - intros w r h Hw. destruct (wf_listeners0 _ _ _ Hw) as (c & -> & Hc).
    exists c. split; [done | lia].
  - intros w r c Hw Hr. specialize (wf_current0 _ _ _ Hw Hr).
    destruct (effects s !! c) as [x|] eqn:Hx; [|done].
    by rewrite (lookup_app_l_Some _ _ _ _ Hx).
  - intros t tm Htm. destruct (wf_armed0 _ _ Htm) as [Ht Hcl]. split; [|done].
    destruct (effects s !! callback tm) as [x|] eqn:Hx; [|done].
    by rewrite (lookup_app_l_Some _ _ _ _ Hx).
  - intros c k' t. rewrite lookup_app_Some. intros [Hk | [_ Hk]].
    + by apply wf_handle0.
    + apply list_lookup_singleton_Some in Hk as [_ <-]. done.
  - intros c Hc%wf_mounted0. lia.
Qed.

Lemma idle_fresh_instance s k :
  wf s → idle (set_effects (λ l, l ++ [k]) s) (length (effects s)).
Proof.
  intros []. split.
  - intros w r Hw. destruct (wf_listeners0 _ _ _ Hw) as (c & [= <-] & Hc). lia.
  - intros t tm Htm ?. destruct (wf_armed0 _ _ Htm) as [Ht _].
    destruct (effects s !! callback tm) as [x|] eqn:Hx; [|done].
    apply lookup_lt_Some in Hx. lia.
Qed.

Lemma idle_fired s t tm :
  wf s → timers s !! t = Some tm →
  idle (set_timers (λ m, delete t m) s) (callback tm) ∧
  (callback tm < length (effects s))%nat.
Proof.
  intros [] Htm. destruct (wf_armed0 _ _ Htm) as [Ht Hcl]. split; [split|].
  - apply Hcl.
  - intros t' tm'; simpl. rewrite lookup_delete. case_decide; [done|].
    intros Htm' Heq. destruct (wf_armed0 _ _ Htm') as [Ht' _].
    rewrite Heq, Ht in Ht'. congruence.
  - destruct (effects s !! callback tm) as [x|] eqn:Hx; [|done].
    by apply lookup_lt_Some in Hx.
Qed.

Lemma idle_closed s w r0 c :
  wf s → wired s w = Some (r0, Some c) → r0 ≠ CLOSED →
  idle (set_readyState w CLOSED s) c ∧ (c < length (effects s))%nat.
Proof.
  intros [] Hw Hr0. split; [split|].
  - intros w' r'. rewrite wired_set_readyState. case_decide; subst.
    + rewrite Hw; simpl. by intros [= <-].
    + intros Hw'. destruct (decide (r' = CLOSED)) as [|Hr']; [done|].
      pose proof (wf_current0 _ _ _ Hw Hr0) as H1.
      pose proof (wf_current0 _ _ _ Hw' Hr') as H2.
      rewrite H1 in H2. congruence.
  - intros t tm Htm <-. destruct (wf_armed0 _ _ Htm) as [_ Hcl].
    by apply Hcl in Hw.
  - destruct (wf_listeners0 _ _ _ Hw) as (c' & [= <-] & Hc). done.
Qed.

Lemma length_effects_connectWebSocket c throws s :
  length (effects (run_callback (connectWebSocket c throws) s)) = length (effects s).
Proof.
  unfold run_callback. destruct throws.
  - rewrite connectWebSocket_catches; simpl. apply length_with_reconnectTimer.
  - destruct (connectWebSocket_constructs c s) as [u ->]; simpl. apply length_with_ws.
Qed.

Lemma effect_body_unfold c throws s :
  let s1 := set_effects (λ l, l ++ [mkClosure (__WS_SINGLETON__ s) None]) s in
  run_callback (effect_body c throws) s =
  if created s then run_callback (connectWebSocket c throws) s1
  else set_wsRef (__WS_SINGLETON__ s) s1.
Proof.
  unfold effect_body, run_callback, mbind, M_bind, gets, modify; simpl.
  by destruct (created s).
Qed.

Lemma wf_after_close_refs c s : wf s → wf (after_close_refs c s).
Proof. unfold after_close_refs. case_bool_decide; by apply wf_ext. Qed.

Lemma idle_after_close_refs c c' s : idle s c → idle (after_close_refs c' s) c.
Proof. unfold after_close_refs. by case_bool_decide. Qed.

Lemma wf_handleClose s c code :
  wf s → (c < length (effects s))%nat → idle s c →
  wf (run_callback (handleClose c code) s).
Proof.
  intros Hwf Hc Hidle. unfold run_callback.
  destruct (abnormal code) eqn:Hcode.
  - rewrite handleClose_abnormal by done.
    assert (Heq : next_timer s = next_timer (after_close_refs c s) ∧
                  clock s = clock (after_close_refs c s)).
    { unfold after_close_refs. by case_bool_decide. }
    destruct Heq as [-> ->]. apply wf_arm.
    + by apply wf_after_close_refs.
    + unfold after_close_refs. by case_bool_decide.
    + by apply idle_after_close_refs.
  - rewrite handleClose_normal by done. by apply wf_after_close_refs.
Qed.

Lemma run_dispatch w (h : nat → M unit) s :
  run_callback (dispatch w h) s =
  match listener s w with
  | Some c => run_callback (h c) s
  | None => s
  end.
Proof.
  unfold run_callback, dispatch, listener.
  unfold mbind at 1, M_bind, gets. by destruct (_ ≫= handlers).
Qed.

Lemma dispatch_wired s w r c (h : nat → M unit) :
  wired s w = Some (r, Some c) → dispatch w h s = h c s.
Proof.
  unfold wired, dispatch, mbind, M_bind, gets. intros Hw.
  destruct (sockets s !! w) as [k|]; simplify_eq/=.
  by destruct (handlers k); simplify_eq.
Qed.

Theorem wf_step e s s' : wf s → step e s = Some s' → wf s'.
Proof.
  intros Hwf Hstep. destruct e; simpl in Hstep.
  - (* Mount *)
    destruct (mounted s); simplify_eq.
    pose proof (wf_append_closure s (__WS_SINGLETON__ s) Hwf) as Hwf1.
    pose proof (idle_fresh_instance s (mkClosure (__WS_SINGLETON__ s) None) Hwf) as Hidle.
    rewrite effect_body_unfold. destruct (created s).
    + apply wf_set_mounted.
      * apply wf_connectWebSocket; [done| |done]. simpl. rewrite length_app; simpl; lia.
      * intros c [= <-]. rewrite length_effects_connectWebSocket; simpl.
        rewrite length_app; simpl; lia.
    + apply wf_set_mounted.
      * eapply wf_ext, Hwf1; done.
      * intros c [= <-]; simpl. rewrite length_app; simpl; lia.
  - (* Unmount *)
    destruct (mounted s) as [c|]; simplify_eq.
    apply wf_set_mounted; [|done].
    unfold run_callback, effect_cleanup, mbind, M_bind, closure; simpl.
    destruct (reconnectTimer _); simpl; [by apply wf_delete_timer | done].
  - (* Elapse *)
    case_match; simplify_eq. eapply wf_ext, Hwf; done.
  - (* Fire *)
    destruct (timers s !! t) as [tm|] eqn:Htm; [|done].
    case_match; simplify_eq.
    destruct (idle_fired s t tm Hwf Htm) as [Hidle Hc].
    apply wf_connectWebSocket; [by apply wf_delete_timer | done | done].
  - (* WsOpen *)
    destruct (sockets s !! w) as [k|] eqn:Hk; [|done]. simpl in Hstep.
    destruct (readyState k) eqn:Hr; simplify_eq.
    apply wf_quiet; [apply quiet_dispatch, quiet_handleOpen|].
    eapply (wf_set_readyState _ _ _ CONNECTING); [done| |done].
    unfold wired. by rewrite Hk; simpl; rewrite Hr.
  - (* WsMessage *)
    repeat case_match; simplify_eq.
    apply wf_quiet; [|done]. apply quiet_dispatch. intros; apply quiet_handleMessage.
  - (* WsClosing *)
    destruct (sockets s !! w) as [k|] eqn:Hk; [|done]. simpl in Hstep.
    assert (wired s w = Some (readyState k, handlers k)) as Hw
      by (unfold wired; by rewrite Hk).
    destruct (readyState k) eqn:Hr; simplify_eq;
      eapply wf_set_readyState; eauto.
  - (* WsClose *)
    destruct (sockets s !! w) as [k|] eqn:Hk; [|done]. simpl in Hstep.
    assert (wired s w = Some (readyState k, handlers k)) as Hw
      by (unfold wired; by rewrite Hk).
    assert (readyState k ≠ CLOSED ∧
            s' = run_callback (dispatch w (λ c, handleClose c code))
                   (set_readyState w CLOSED s)) as [Hr ->]
      by (destruct (readyState k); by simplify_eq).
    destruct Hwf as [? ? Hl ? ? ?] eqn:E. destruct (Hl _ _ _ Hw) as (c & Hh & Hc).
    rewrite Hh in Hw. clear E.
    destruct (idle_closed s w _ c Hwf Hw Hr) as [Hidle _].
    unfold run_callback.
    rewrite (dispatch_wired _ w CLOSED c).
    + apply wf_handleClose; [|done|done].
      eapply wf_set_readyState; eauto.
    + rewrite wired_set_readyState, decide_True by done. by rewrite Hw.
  - (* WsError *)
    case_match; simplify_eq.
    apply wf_quiet; [|done]. apply quiet_dispatch, quiet_handleError.
  - (* ClickSwitchUser *)
    case_match; simplify_eq. apply wf_quiet; [apply quiet_switchUser | done].
  - (* AccountUpdated *)
    case_match; simplify_eq. apply wf_quiet; [apply quiet_handleAccountUpdated | done].
Qed.

Theorem reachable_wf s : reachable s → wf s.
Proof. induction 1; [apply wf_init | by eapply wf_step]. Qed.

(* ===================================================================== *)
(** ** Timers: handles are never reused, time never runs backwards *)
(* ===================================================================== *)

Lemma ages_refl s : ages s s.
Proof. by repeat split. Qed.

Lemma ages_trans s1 s2 s3 : ages s1 s2 → ages s2 s3 → ages s1 s3.
Proof.
  intros (Hn1 & Hc1 & Ht1) (Hn2 & Hc2 & Ht2). repeat split; [lia | lia |].
  intros t tm Hlt Htm. apply Ht1; [done|]. apply Ht2; [lia | done].
Qed.

Lemma ages_same s s' :
  next_timer s' = next_timer s → clock s' = clock s → timers s' = timers s → ages s s'.
Proof. intros Hn Hc Ht. unfold ages. rewrite Hn, Hc, Ht. by repeat split. Qed.

Lemma ages_wiring s s' : wiring s' = wiring s → ages s s'.
Proof. unfold wiring. intros [= ? _ _ _ _ _ ? ?]. by apply ages_same. Qed.

Lemma ages_quiet (m : M unit) s : quiet m → ages s (run_callback m s).
Proof.
  intros Hq. unfold run_callback. specialize (Hq s).
  destruct (m s) as [[e|[]] s']; simpl in *; by apply ages_wiring.
Qed.

Lemma ages_arm s s' d c :
  next_timer s' = S (next_timer s) → clock s' = clock s →
  timers s' = <[next_timer s := mkTimer d c]> (timers s) → ages s s'.
Proof.
  intros Hn Hc Ht. unfold ages. rewrite Hn, Hc, Ht. repeat split; [lia | done |].
  intros t tm Hlt. by rewrite lookup_insert_ne by lia.
Qed.

Lemma ages_delete s t : ages s (set_timers (λ m, delete t m) s).
Proof.
  repeat split; simpl; [done..|]. intros t' tm _.
  rewrite lookup_delete. by case_decide.
Qed.

Lemma ages_connectWebSocket c throws s : ages s (run_callback (connectWebSocket c throws) s).
Proof.
  unfold run_callback. destruct throws.
  - rewrite connectWebSocket_catches. by eapply ages_arm.
  - destruct (connectWebSocket_constructs c s) as [u ->]. by apply ages_same.
Qed.

Lemma ages_handleClose c code s : ages s (run_callback (handleClose c code) s).
Proof.
  unfold run_callback. destruct (abnormal code) eqn:Hcode.
  - rewrite handleClose_abnormal by done.
    eapply ages_arm; simpl; unfold after_close_refs; try case_bool_decide; done.
  - rewrite handleClose_normal by done.
    apply ages_same; unfold after_close_refs; try case_bool_decide; done.
Qed.

Lemma ages_step e s s' : step e s = Some s' → ages s s'.
Proof.
  intros Hstep. destruct e; simpl in Hstep.
  - destruct (mounted s); simplify_eq. rewrite effect_body_unfold.
    destruct (created s).
    + eapply ages_trans;
        [by apply (ages_same s (set_effects (λ l, l ++ [mkClosure (__WS_SINGLETON__ s) None]) s))|].
      eapply ages_trans; [apply ages_connectWebSocket|]. by apply ages_same.
    + by apply ages_same.
  - destruct (mounted s) as [c|]; simplify_eq.
    unfold run_callback, effect_cleanup, mbind, M_bind, closure; simpl.
    destruct (reconnectTimer _); simpl.
    + eapply ages_trans; [apply ages_delete | by apply ages_same].
    + by apply ages_same.
  - case_match eqn:Hdt; simplify_eq. repeat split; simpl; [done | lia | done].
  - destruct (timers s !! t) as [tm|]; [|done]. case_match; simplify_eq.
    eapply ages_trans; [apply ages_delete | apply ages_connectWebSocket].
  - repeat case_match; simplify_eq.
    eapply ages_trans; [|apply ages_quiet, quiet_dispatch, quiet_handleOpen].
    by apply ages_same.
  - repeat case_match; simplify_eq.
    apply ages_quiet, quiet_dispatch. intros; apply quiet_handleMessage.
  - repeat case_match; simplify_eq; by apply ages_same.
  - assert (s' = run_callback (dispatch w (λ c, handleClose c code))
                   (set_readyState w CLOSED s)) as ->
      by (destruct (sockets s !! w) as [k|]; [|done];
          simpl in Hstep; destruct (readyState k); by simplify_eq).
    eapply ages_trans; [by apply (ages_same s (set_readyState w CLOSED s))|].
    rewrite run_dispatch.
    destruct (listener _ w) as [c|]; [apply ages_handleClose | apply ages_refl].
  - case_match; simplify_eq. apply ages_quiet, quiet_dispatch, quiet_handleError.
  - case_match; simplify_eq. apply ages_quiet, quiet_switchUser.
  - case_match; simplify_eq. apply ages_quiet, quiet_handleAccountUpdated.
Qed.

Lemma ages_run evs s s' : run evs s = Some s' → ages s s'.
Proof.
  revert s. induction evs as [|e evs IH]; intros s; simpl.
  - intros [= ->]. apply ages_refl.
  - destruct (step e s) as [s1|] eqn:Hstep; [|done].
    intros Hrun. eapply ages_trans; [by eapply ages_step | by apply IH].
Qed.

Lemma run_reachable evs s s' : reachable s → run evs s = Some s' → reachable s'.
Proof.
  revert s. induction evs as [|e evs IH]; intros s Hs; simpl.
  - by intros [= <-].
  - destruct (step e s) as [s1|] eqn:Hstep; [|done].
    apply IH. by eapply reachable_step.
Qed.

(** Firing consumes the timer. *)
Lemma fire_consumes s t throws s' :
  wf s → step (Fire t throws) s = Some s' →
  ∃ tm, timers s !! t = Some tm ∧ due tm ≤ clock s ∧ timers s' !! t = None.
Proof.
  intros Hwf Hstep. simpl in Hstep.
  destruct (timers s !! t) as [tm|] eqn:Htm; [|done].
  case_match eqn:Hdue; simplify_eq. exists tm. repeat split; [lia|].
  destruct (timers (run_callback _ _) !! t) as [tm'|] eqn:Htm'; [|done].
  pose proof (ages_connectWebSocket (callback tm) throws
                (set_timers (λ m, delete t m) s)) as (_ & _ & Hold).
  apply Hold in Htm'; simpl in *.
  - by rewrite lookup_delete_eq in Htm'.
  - destruct Hwf. destruct (wf_fresh0 t); [by rewrite Htm | done].
Qed.

Lemma spent_never_fires evs s s' t :
  wf s → (t < next_timer s)%nat → timers s !! t = None →
  run evs s = Some s' → fired t evs = 0%nat.
Proof.
  revert s. induction evs as [|e evs IH]; intros s Hwf Hlt Hnone; simpl; [done|].
  destruct (step e s) as [s1|] eqn:Hstep; [|done]. intros Hrun.
  pose proof (ages_step _ _ _ Hstep) as (Hn & _ & Hold).
  assert (fired t evs = 0%nat) as Hrest.
  { eapply IH; [by eapply wf_step | lia | | done].
    destruct (timers s1 !! t) as [tm|] eqn:Htm; [|done].
    apply Hold in Htm; [congruence | done]. }
  destruct e as [| | |t' b| | | | | | |]; try done.
  case_bool_decide; [subst t'|done].
  simpl in Hstep. by rewrite Hnone in Hstep.
Qed.

Lemma fires_at_most_once evs s s' t :
  wf s → (t < next_timer s)%nat → run evs s = Some s' → (fired t evs ≤ 1)%nat.
Proof.
  revert s. induction evs as [|e evs IH]; intros s Hwf Hlt; simpl; [lia|].
  destruct (step e s) as [s1|] eqn:Hstep; [|done]. intros Hrun.
  pose proof (ages_step _ _ _ Hstep) as (Hn & _ & _).
  pose proof (wf_step _ _ _ Hwf Hstep) as Hwf1.
  assert (fired t evs ≤ 1)%nat by (eapply IH; [done | lia | done]).
  destruct e as [| | |t' b| | | | | | |]; try done.
  case_bool_decide; [subst t'|done].
  destruct (fire_consumes _ _ _ _ Hwf Hstep) as (tm & _ & _ & Hgone).
  rewrite (spent_never_fires evs s1 s' t); [lia | done | lia | done | done].
Qed.

Lemma fires_when_due evs s s1 t tm throws :
  wf s → timers s !! t = Some tm → run evs s = Some s1 →
  is_Some (step (Fire t throws) s1) → due tm ≤ clock s1.
Proof.
  intros Hwf Htm Hrun [s2 Hstep].
  pose proof (ages_run _ _ _ Hrun) as (_ & _ & Hold).
  simpl in Hstep. destruct (timers s1 !! t) as [tm'|] eqn:Htm'; [|done].
  apply Hold in Htm'.
  - case_match eqn:Hdue; simplify_eq. lia.
  - destruct Hwf. destruct (wf_fresh0 t); [by rewrite Htm | done].
Qed.

Lemma after_reachable evs : is_Some (run evs (init None)) → reachable (after evs).
Proof.
  intros [s Hs]. unfold after. rewrite Hs. simpl.
  eapply run_reachable; [apply reachable_init | done].
Qed.



Lemma close_event s w code s' :
  wf s → step (WsClose w code) s = Some s' →
  ∃ r c, wired s w = Some (r, Some c) ∧ r ≠ CLOSED ∧
    s' = run_callback (handleClose c code) (set_readyState w CLOSED s).
Proof.
  intros Hwf Hstep. simpl in Hstep.
  destruct (sockets s !! w) as [k|] eqn:Hk; [|done]. simpl in Hstep.
  assert (wired s w = Some (readyState k, handlers k)) as Hw
    by (unfold wired; by rewrite Hk).
  destruct (wf_listeners s Hwf _ _ _ Hw) as (c & Hh & _). rewrite Hh in Hw.
  exists (readyState k), c. split; [done|].
  assert (listener (set_readyState w CLOSED s) w = Some c) as Hl.
  { unfold listener, set_readyState; simpl. rewrite Hk.
    rewrite list_lookup_insert_eq by (by eapply lookup_lt_Some). done. }
  rewrite run_dispatch, Hl in Hstep.
  destruct (readyState k); by simplify_eq.
Qed.

Lemma fire_event s t throws s' :
  step (Fire t throws) s = Some s' →
  ∃ tm, timers s !! t = Some tm ∧ due tm ≤ clock s ∧
    s' = run_callback (connectWebSocket (callback tm) throws)
           (set_timers (λ m, delete t m) s).
Proof.
  simpl. destruct (timers s !! t) as [tm|]; [|done].
  case_match eqn:Hdue; [|done]. intros [= <-]. exists tm. repeat split. lia.
Qed.

Lemma connect_socket_count c throws s :
  length (sockets (run_callback (connectWebSocket c throws) s)) =
  (length (sockets s) + (if throws then 0 else 1))%nat.
Proof.
  unfold run_callback. destruct throws.
  - rewrite connectWebSocket_catches; simpl. lia.
  - destruct (connectWebSocket_constructs c s) as [u ->]; simpl.
    by rewrite length_app.
Qed.

Lemma armed_one_attempt s t d c :
  wf s → timers s !! t = Some (mkTimer d c) → one_attempt_at s t c d.
Proof.
  intros Hwf Htm evs s1 Hrun. split.
  - eapply fires_at_most_once; [done| |done].
    destruct Hwf. destruct (wf_fresh0 t); [by rewrite Htm | done].
  - intros throws s2 Hstep.
    pose proof (fires_when_due _ _ _ _ _ throws Hwf Htm Hrun (mk_is_Some _ _ Hstep)) as Hdue.
    split; [done|].
    destruct (fire_event _ _ _ _ Hstep) as (tm & Htm1 & _ & ->).
    pose proof (ages_run _ _ _ Hrun) as (_ & _ & Hold).
    apply Hold in Htm1.
    + rewrite Htm in Htm1. injection Htm1 as <-. simpl.
      split; [done | by rewrite connect_socket_count].
    + destruct Hwf. destruct (wf_fresh0 t); [by rewrite Htm | done].
Qed.

(** ... and once its deadline has passed it can fire. *)
Lemma armed_fires_when_due s t tm dt :
  timers s !! t = Some tm → 0 ≤ dt → due tm ≤ clock s + dt →
  can_fire_after s t dt.
Proof.
  intros Htm Hdt Hdue throws. simpl.
  rewrite (proj2 (Z.leb_le 0 dt) Hdt). simpl. rewrite Htm.
  rewrite (proj2 (Z.leb_le _ _) Hdue). eauto.
Qed.

(* ===================================================================== *)
(** ** Reconnecting after a close *)
(* ===================================================================== *)



(* ===================================================================== *)
(** ** One connection at a time *)
(* ===================================================================== *)

(** A re-run of the effect that finds the singleton CONNECTING or OPEN
    constructs nothing and points [wsRef] at the singleton. *)
Lemma created_false s w k :
  __WS_SINGLETON__ s = Some w → sockets s !! w = Some k → in_flight k = true →
  created s = false.
Proof.
  unfold created, in_flight. intros -> -> Hr; simpl. by destruct (readyState k).
Qed.

Lemma remount_reuses s throws s' :
  step (Mount throws) s = Some s' → created s = false →
  sockets s' = sockets s ∧ __WS_SINGLETON__ s' = __WS_SINGLETON__ s ∧
  wsRef s' = __WS_SINGLETON__ s ∧ timers s' = timers s.
Proof.
  simpl. destruct (mounted s); [done|]. intros [= <-] Hc.
  by rewrite effect_body_unfold, Hc.
Qed.

(** The sockets whose listeners belong to one effect instance are never two
    alive at once. *)
Lemma instance_owns_one_connection s w w' r r' c :
  reachable s → wired s w = Some (r, Some c) → wired s w' = Some (r', Some c) →
  r ≠ CLOSED → r' ≠ CLOSED → w = w'.
Proof.
  intros Hwf%reachable_wf Hw Hw' Hr Hr'. destruct Hwf.
  pose proof (wf_current0 _ _ _ Hw Hr) as H1.
  pose proof (wf_current0 _ _ _ Hw' Hr') as H2.
  rewrite H1 in H2. congruence.
Qed.

Lemma filter_at_most_one {A} (P : A → Prop) `{!∀ x, Decision (P x)} (l : list A) :
  (∀ i j x y, l !! i = Some x → l !! j = Some y → P x → P y → i = j) →
  (length (filter P l) ≤ 1)%nat.
Proof.
  induction l as [|x l IH]; intros Hone; [simpl; lia|].
  rewrite filter_cons. destruct (decide (P x)) as [Hx|Hx].
  - destruct (filter P l) as [|y rest] eqn:E; [simpl; lia|].
    assert (y ∈ filter P l) as Hy by (rewrite E; left).
    apply list_elem_of_filter in Hy as [Hpy Hy].
    apply list_elem_of_lookup in Hy as [j Hj].
    by specialize (Hone 0%nat (S j) x y eq_refl Hj Hx Hpy).
  - apply IH. intros i j a b Hi Hj Ha Hb.
    by specialize (Hone (S i) (S j) a b Hi Hj Ha Hb) as [= ->].
Qed.

(** While the effect has run only once, at most one connection is in flight
    or established, whatever the sockets and timers do. *)
Theorem single_instance_singleton s :
  reachable s → (length (effects s) ≤ 1)%nat → (connections s ≤ 1)%nat.
Proof.
  intros Hreach Hone. pose proof (reachable_wf _ Hreach) as Hwf.
  unfold connections. apply filter_at_most_one.
  intros i j x y Hi Hj Hx Hy.
  assert (∀ w k, sockets s !! w = Some k → in_flight k = true →
            wired s w = Some (readyState k, Some 0%nat) ∧ readyState k ≠ CLOSED) as Hown.
  { intros w k Hk Hin. unfold wired. rewrite Hk; simpl.
    destruct (wf_listeners s Hwf w (readyState k) (handlers k)) as (c & -> & Hc).
    { unfold wired. by rewrite Hk. }
    replace c with 0%nat by lia. split; [done|].
    unfold in_flight in Hin. by destruct (readyState k). }
  destruct (Hown _ _ Hi Hx) as [Hwi Hri]. destruct (Hown _ _ Hj Hy) as [Hwj Hrj].
  by eapply instance_owns_one_connection.
Qed.


(* ===================================================================== *)
(** ** A constructor that throws *)
(* ===================================================================== *)

(** C3 (as amended).  Whenever the [WebSocket] constructor throws, in the
    effect body or in a timer callback, [connectWebSocket] catches the
    exception and returns normally; no socket is constructed, the singleton
    and [wsRef] stay as they were, the failure is logged, and exactly one
    new timer is armed, due 5000 ms later (not the 3000 ms of an abnormal
    close), for the instance that tried; in every continuation that timer
    fires at most once and never before the 5000 ms have elapsed, its firing
    is one run of [connectWebSocket], and once the 5000 ms have elapsed it
    can fire. *)
Theorem connect_error_schedules_one_retry s e s' :
  reachable s → step e s = Some s' → establishing_throws e s →
  (∀ c, (connectWebSocket c true s).1 = inr tt) ∧
  sockets s' = sockets s ∧ __WS_SINGLETON__ s' = __WS_SINGLETON__ s ∧
  wsRef s' = wsRef s ∧
  console s' = console s ++
    [console_error [log_str "Failed to create WebSocket:"; log_exn DOMException]] ∧
  ∃ t c, timers s !! t = None ∧
    timers s' = <[t := mkTimer (clock s + 5000) c]> (consumed e (timers s)) ∧
    one_attempt_at s' t c (clock s + 5000) ∧
    can_fire_after s' t 5000.
Proof.
  intros Hreach Hstep He. pose proof (reachable_wf _ Hreach) as Hwf.
  pose proof (wf_step _ _ _ Hwf Hstep) as Hwf'.
  split; [intros c; by rewrite connectWebSocket_catches|].
  assert (timers s !! next_timer s = None) as Hfresh.
  { destruct (timers s !! next_timer s) eqn:E; [|done].
    destruct Hwf. destruct (wf_fresh0 (next_timer s)); [by rewrite E | lia]. }
  destruct e as [[]| | |t []| | | | | | |]; try done; simpl in He.
  - (* the effect body *)
    simpl in Hstep. destruct (mounted s); simplify_eq.
    rewrite effect_body_unfold, He in *. unfold run_callback in *.
    rewrite connectWebSocket_catches in *. simpl in *.
    repeat (split; [done|]). exists (next_timer s), (length (effects s)).
    split; [done|]. split; [done|]. split.
    + by apply armed_one_attempt; [|simpl; rewrite lookup_insert_eq].
    + eapply armed_fires_when_due;
        [simpl; by rewrite lookup_insert_eq | lia | simpl; lia].
  - (* a timer callback *)
    destruct (fire_event _ _ _ _ Hstep) as (tm & Htm & _ & ->).
    unfold run_callback in *. rewrite connectWebSocket_catches in *. simpl in *.
    repeat (split; [done|]). exists (next_timer s), (callback tm).
    split; [done|]. split; [done|]. split.
    + by apply armed_one_attempt; [|simpl; rewrite lookup_insert_eq].
    + eapply armed_fires_when_due;
        [simpl; by rewrite lookup_insert_eq | lia | simpl; lia].
Qed.

Lemma connect_error_schedules_one_retry_witness :
  reachable (init None) ∧
  step (Mount true) (init None) = Some (after [Mount true]) ∧
  establishing_throws (Mount true) (init None) ∧
  sockets (after [Mount true]) = sockets (init None) ∧
  ∃ t c, timers (init None) !! t = None ∧
    timers (after [Mount true]) =
      <[t := mkTimer (clock (init None) + 5000) c]>
        (consumed (Mount true) (timers (init None))) ∧
    one_attempt_at (after [Mount true]) t c (clock (init None) + 5000) ∧
    can_fire_after (after [Mount true]) t 5000.
Proof.
  assert (reachable (init None)) as Hreach by apply reachable_init.
  assert (step (Mount true) (init None) = Some (after [Mount true])) as Hstep
    by (vm_compute; reflexivity).
  assert (establishing_throws (Mount true) (init None)) as He by reflexivity.
  split; [exact Hreach|]. split; [exact Hstep|]. split; [exact He|].
  destruct (connect_error_schedules_one_retry _ _ _ Hreach Hstep He)
    as (_ & Hsock & _ & _ & _ & Harmed).
  split; [exact Hsock | exact Harmed].
Defined.

(** The claim as stated fails: from the same instant, the retry after a
    refused construction is due at 5000 ms and the reconnect after an
    abnormal close at 3000 ms; 3000 ms later the second can fire and the
    first cannot. *)
Lemma connect_error_delay_differs :
  ∃ s1 s2,
    run [Mount true] (init None) = Some s1 ∧
    run [Mount false; WsClose 0 1006] (init None) = Some s2 ∧
    clock s1 = clock s2 ∧
    due <$> timers s1 !! 1%nat = Some 5000 ∧
    due <$> timers s2 !! 1%nat = Some 3000 ∧
    run [Elapse 3000; Fire 1 false] s1 = None ∧
    is_Some (run [Elapse 3000; Fire 1 false] s2).
Proof.
  eexists _, _. split; [vm_compute; reflexivity|]. split; [vm_compute; reflexivity|].
  repeat split; try (vm_compute; reflexivity). vm_compute. eauto.
Qed.

(* ===================================================================== *)
(** ** Inbound frames *)
(* ===================================================================== *)

Lemma message_event s w data s' :
  wf s → step (WsMessage w data) s = Some s' →
  ∃ k c cl, sockets s !! w = Some k ∧ readyState k = OPEN ∧ handlers k = Some c ∧
    effects s !! c = Some cl ∧ ws cl = Some w ∧
    s' = run_callback (handleMessage c data) s.
Proof.
  intros Hwf Hstep. simpl in Hstep.
  destruct (sockets s !! w) as [k|] eqn:Hk; [|done]. simpl in Hstep.
  destruct (readyState k) eqn:Hr; simplify_eq.
  assert (wired s w = Some (OPEN, handlers k)) as Hw.
  { unfold wired. rewrite Hk. simpl. by rewrite Hr. }
  destruct (wf_listeners s Hwf _ _ _ Hw) as (c & Hh & _). rewrite Hh in Hw.
  assert (ws <$> effects s !! c = Some (Some w)) as Hc
    by (by eapply wf_current).
  destruct (effects s !! c) as [cl|] eqn:Hcl; [|done].
  exists k, c, cl. repeat split; try done.
  - simpl in Hc. by simplify_eq.
  - rewrite run_dispatch. unfold listener. by rewrite Hk; simpl; rewrite Hh.
Qed.

Lemma send_open w m s k :
  sockets s !! w = Some k → readyState k = OPEN →
  send w m s = (inr tt, set_sockets (transmit w m) s).
Proof.
  intros Hk Hr. unfold send, transmit. rewrite Hk, Hr.
  unfold set_sockets. by rewrite Hk, Hr.
Qed.

Lemma handleMessage_bootstrap_ok c cl w k fields s :
  own_property "type" fields = Some (JStr "bootstrap_ok") →
  effects s !! c = Some cl → ws cl = Some w →
  sockets s !! w = Some k → readyState k = OPEN →
  let u := default JUndefined (own_property "user" fields) in
  let a := default JUndefined (own_property "account" fields) in
  handleMessage c (Json (JObj fields)) s =
    (inr tt,
     set_sockets (transmit w get_snapshot)
       (set_session (λ x, mkSession (if truthy u then u else user x)
                                    (if truthy a then a else account x)
                                    (overview x)) s)).
Proof.
  intros Htype Hcl Hws Hk Hr u a.
  unfold handleMessage, try_catch, mbind, M_bind, lift, mret, M_ret.
  simpl. rewrite Htype; simpl. fold u a.
  destruct (truthy u), (truthy a); simpl;
    unfold closure; simpl; rewrite Hcl; simpl; rewrite Hws; simpl;
    (erewrite send_open; [|exact Hk|exact Hr]); simpl;
    by destruct s as [? ? ? ? ? ? ? ? ? []].
Qed.

(** Every object is truthy, so a [user] or [account] payload of the wire
    shape passes the [if (msg.user)] / [if (msg.account)] tests. *)
Lemma object_truthy fields : truthy (JObj fields) = true.
Proof. done. Qed.

(** C4.  For every inbound [bootstrap_ok] frame, delivered to an open
    socket of a reachable state: when the frame carries both a [user] and an
    [account] (truthy, as every object is), the session's user and account
    become the frame's; a field that is absent leaves its cell unchanged;
    the overview is untouched; and exactly one [get_snapshot] is sent, on
    the socket the frame came in on, and nothing on any other. *)
Theorem bootstrap_ok_sets_session s w fields s' :
  reachable s → step (WsMessage w (Json (JObj fields))) s = Some s' →
  own_property "type" fields = Some (JStr "bootstrap_ok") →
  (∀ u a, own_property "user" fields = Some u → truthy u = true →
          own_property "account" fields = Some a → truthy a = true →
          user (session s') = u ∧ account (session s') = a) ∧
  (own_property "user" fields = None → user (session s') = user (session s)) ∧
  (own_property "account" fields = None → account (session s') = account (session s)) ∧
  overview (session s') = overview (session s) ∧
  ∃ k, sockets s !! w = Some k ∧ readyState k = OPEN ∧
    sockets s' =
      <[w := mkWebSocket (url k) OPEN (handlers k) (sent k ++ [get_snapshot])]> (sockets s).
Proof.
  intros Hwf%reachable_wf Hstep Htype.
  destruct (message_event _ _ _ _ Hwf Hstep) as (k & c & cl & Hk & Hr & Hh & Hcl & Hws & ->).
  unfold run_callback.
  rewrite (handleMessage_bootstrap_ok c cl w k) by done. simpl.
  split; [|split; [|split; [|split]]]; try done.
  - intros u a Hu Htu Ha Hta. rewrite Hu, Ha; simpl. by rewrite Htu, Hta.
  - by intros ->.
  - by intros ->.
  - exists k. unfold transmit. by rewrite Hk, Hr.
Qed.

Lemma bootstrap_ok_sets_session_witness :
  reachable (after [Mount false; WsOpen 0]) ∧
  step (WsMessage 0 (Json (JObj fields_bootstrap_ok))) (after [Mount false; WsOpen 0]) =
    Some (after [Mount false; WsOpen 0; WsMessage 0 (Json (JObj fields_bootstrap_ok))]) ∧
  user (session (after [Mount false; WsOpen 0;
                        WsMessage 0 (Json (JObj fields_bootstrap_ok))])) = user_default ∧
  account (session (after [Mount false; WsOpen 0;
                           WsMessage 0 (Json (JObj fields_bootstrap_ok))])) = account_paper.
Proof.
  assert (reachable (after [Mount false; WsOpen 0])) as Hreach
    by (apply after_reachable; vm_compute; eauto).
  assert (step (WsMessage 0 (Json (JObj fields_bootstrap_ok)))
            (after [Mount false; WsOpen 0]) =
          Some (after [Mount false; WsOpen 0;
                       WsMessage 0 (Json (JObj fields_bootstrap_ok))])) as Hstep
    by (vm_compute; reflexivity).
  split; [exact Hreach|]. split; [exact Hstep|].
  apply (proj1 (bootstrap_ok_sets_session _ _ _ _ Hreach Hstep eq_refl)
           user_default account_paper eq_refl eq_refl eq_refl eq_refl).
Defined.

Lemma handleMessage_discards c data s :
  discarded data = true →
  handleMessage c data s = (inr tt, s) ∨
  ∃ e, handleMessage c data s = (inr tt, set_console (λ l, l ++ [parse_failure e]) s).
Proof.
  intros Hd. destruct data as [| |msg]; [right; by eexists..|].
  unfold discarded in Hd.
  unfold handleMessage, try_catch, mbind, M_bind, lift, mret, M_ret; simpl.
  destruct (getprop msg "type") as [e|type]; [right; by eexists|].
  apply negb_true_iff in Hd. unfold recognized in Hd. simpl in Hd.
  repeat (apply orb_false_iff in Hd as [? Hd]).
  left.
  repeat match goal with
         | H : strict_eq_str _ _ = false |- _ => rewrite H; clear H
         end.
  done.
Qed.

Lemma handleMessage_returns c data s : (handleMessage c data s).1 = inr tt.
Proof.
  unfold handleMessage, try_catch.
  match goal with |- context [?body s] => destruct (body s) as [[e|[]] s1] end; done.
Qed.

(** C5 (as amended).  For every inbound frame, whatever it holds, no
    exception escapes [handleMessage] and the connection state is unchanged:
    every socket's [readyState] and listeners, the singleton, [wsRef], the
    effect instances' variables and the timers.  A frame that is not text,
    fails to parse, parses to [null], or carries a [type] that is none of
    the seven known ones (or no [type] at all) is moreover discarded without
    side effects: the session cells are unchanged, nothing is sent, no
    notification is shown, and at most one parse-failure line is logged. *)
Theorem unparsed_or_unknown_frame_discarded c data s :
  (handleMessage c data s).1 = inr tt ∧
  wiring (handleMessage c data s).2 = wiring s ∧
  (discarded data = true →
     session (handleMessage c data s).2 = session s ∧
     sockets (handleMessage c data s).2 = sockets s ∧
     toasts (handleMessage c data s).2 = toasts s ∧
     (console (handleMessage c data s).2 = console s ∨
      ∃ e, console (handleMessage c data s).2 = console s ++ [parse_failure e])).
Proof.
  split; [apply handleMessage_returns|]. split; [apply quiet_handleMessage|].
  intros Hd. destruct (handleMessage_discards c data s Hd) as [-> | [e ->]]; simpl.
  - repeat split; by left.
  - repeat split. right. by exists e.
Qed.

Lemma unparsed_or_unknown_frame_discarded_witness :
  discarded Malformed = true ∧
  session (handleMessage 0 Malformed (after session_up)).2 = session (after session_up) ∧
  sockets (handleMessage 0 Malformed (after session_up)).2 = sockets (after session_up) ∧
  toasts (handleMessage 0 Malformed (after session_up)).2 = toasts (after session_up) ∧
  (console (handleMessage 0 Malformed (after session_up)).2 = console (after session_up) ∨
   ∃ e, console (handleMessage 0 Malformed (after session_up)).2 =
          console (after session_up) ++ [parse_failure e]).
Proof.
  split; [reflexivity|].
  apply (proj2 (proj2 (unparsed_or_unknown_frame_discarded 0 Malformed (after session_up)))).
  reflexivity.
Defined.

(** The claim as stated fails for a frame that parses, has a known type,
    and lacks its payload: a [snapshot] frame without [overview] overwrites
    the stored overview with [undefined], and the interface falls back to
    the placeholder. *)
Lemma snapshot_without_overview_clears_overview :
  ∃ s s',
    run session_up (init None) = Some s ∧
    step (WsMessage 0 (Json (JObj fields_snapshot_no_overview))) s = Some s' ∧
    overview (session s) = overview_10000 ∧
    overview (session s') = JUndefined ∧
    renders_interface s = true ∧ renders_interface s' = false.
Proof.
  eexists _, _. split; [vm_compute; reflexivity|]. split; [vm_compute; reflexivity|].
  repeat split.
Qed.

Lemma ToString_scalar v :
  (∀ items, v ≠ JArr items) → (∀ fields, v ≠ JObj fields) → ∃ text, ToString v = inr text.
Proof. intros Ha Ho. destruct v; simpl; eauto; [by destruct (Ha items) | by destruct (Ho fields)]. Qed.

(** C8.  For every inbound [user_switched] frame whose [user] payload is
    present (its [username] can be read and shown), handling the frame
    returns normally, replaces the session's user with the payload and
    leaves account and overview as they were; likewise [account_switched]
    with [account] and its [name], leaving user and overview as they
    were. *)
Theorem switched_replaces_identity_keeps_overview c s fields payload :
  (own_property "type" fields = Some (JStr "user_switched") →
   own_property "user" fields = Some payload →
   ∀ name shown, getprop payload "username" = inr name → ToString name = inr shown →
     ∃ s', handleMessage c (Json (JObj fields)) s = (inr tt, s') ∧
       user (session s') = payload ∧
       account (session s') = account (session s) ∧
       overview (session s') = overview (session s) ∧
       toasts s' = toasts s ++ [switched_toast shown]) ∧
  (own_property "type" fields = Some (JStr "account_switched") →
   own_property "account" fields = Some payload →
   ∀ name shown, getprop payload "name" = inr name → ToString name = inr shown →
     ∃ s', handleMessage c (Json (JObj fields)) s = (inr tt, s') ∧
       account (session s') = payload ∧
       user (session s') = user (session s) ∧
       overview (session s') = overview (session s) ∧
       toasts s' = toasts s ++ [switched_toast shown]).
Proof.
  split; intros Htype Hp name shown Hname Hshown;
    unfold handleMessage, try_catch, mbind, M_bind, lift, mret, M_ret; simpl;
    rewrite Htype, Hp; simpl; rewrite Hname, Hshown; simpl;
    eexists; (split; [reflexivity|]); done.
Qed.

Lemma switched_replaces_identity_keeps_overview_witness :
  ∃ s', handleMessage 0 (Json (JObj fields_user_switched)) (after session_up) = (inr tt, s') ∧
    user (session s') = user_alice ∧
    account (session s') = account (session (after session_up)) ∧
    overview (session s') = overview (session (after session_up)) ∧
    toasts s' = toasts (after session_up) ++ [switched_toast "alice"].
Proof.
  apply (proj1 (switched_replaces_identity_keeps_overview 0 (after session_up)
                  fields_user_switched user_alice)
           eq_refl eq_refl (JStr "alice") "alice" eq_refl eq_refl).
Defined.

(** C9.  For every inbound [user_switched] frame without a [user] field,
    and every [account_switched] frame without an [account] field, the
    [TypeError] of the field read is caught inside [handleMessage]: the
    handler returns normally, the session cells, every socket (so an open
    connection stays open), the singleton, [wsRef], the timers and the
    notifications are unchanged, and one parse-failure line is logged. *)
Theorem absent_payload_error_is_contained c s fields :
  (own_property "type" fields = Some (JStr "user_switched") ∧
   own_property "user" fields = None) ∨
  (own_property "type" fields = Some (JStr "account_switched") ∧
   own_property "account" fields = None) →
  ∃ s', handleMessage c (Json (JObj fields)) s = (inr tt, s') ∧
    session s' = session s ∧ sockets s' = sockets s ∧
    __WS_SINGLETON__ s' = __WS_SINGLETON__ s ∧ wsRef s' = wsRef s ∧
    timers s' = timers s ∧ toasts s' = toasts s ∧
    console s' = console s ++ [parse_failure TypeError].
Proof.
  intros [[Htype Hp] | [Htype Hp]];
    unfold handleMessage, try_catch, mbind, M_bind, lift, mret, M_ret; simpl;
    rewrite Htype, Hp; simpl; eexists; (split; [reflexivity|]); done.
Qed.

Lemma absent_payload_error_is_contained_witness :
  ∃ s', handleMessage 0 (Json (JObj fields_user_switched_no_user)) (after session_up) =
          (inr tt, s') ∧
    session s' = session (after session_up) ∧ sockets s' = sockets (after session_up) ∧
    __WS_SINGLETON__ s' = __WS_SINGLETON__ (after session_up) ∧
    wsRef s' = wsRef (after session_up) ∧
    timers s' = timers (after session_up) ∧ toasts s' = toasts (after session_up) ∧
    console s' = console (after session_up) ++ [parse_failure TypeError].
Proof.
  apply (absent_payload_error_is_contained 0 (after session_up)
           fields_user_switched_no_user).
  left. split; reflexivity.
Defined.

(* ===================================================================== *)
(** ** Teardown *)
(* ===================================================================== *)

(** C6 (as amended).  The cleanup of the effect cancels every timer armed
    by the effect instance being torn down, and no other timer; it closes
    nothing: every socket keeps its [readyState], and the singleton and
    [wsRef] stay as they were. *)
Theorem teardown_cancels_own_timer s s' :
  reachable s → step Unmount s = Some s' →
  ∃ c, mounted s = Some c ∧ mounted s' = None ∧
    readyState <$> sockets s' = readyState <$> sockets s ∧
    __WS_SINGLETON__ s' = __WS_SINGLETON__ s ∧ wsRef s' = wsRef s ∧
    ∀ t, timers s' !! t =
         match timers s !! t with
         | Some tm => if bool_decide (callback tm = c) then None else Some tm
         | None => None
         end.
Proof.
  intros Hwf%reachable_wf Hstep. simpl in Hstep.
  destruct (mounted s) as [c|] eqn:Hm; [|done]. injection Hstep as <-.
  exists c. split; [done|].
  unfold run_callback, effect_cleanup, mbind, M_bind, closure; simpl.
  destruct (effects s !! c) as [cl|] eqn:Hcl; simpl.
  2: { apply (wf_mounted s Hwf), lookup_lt_is_Some in Hm. rewrite Hcl in Hm.
       by destruct Hm. }
  destruct (reconnectTimer cl) as [t0|] eqn:Ht0; simpl; repeat (split; [done|]).
  - intros t. rewrite lookup_delete. case_decide; subst.
    + destruct (timers s !! t) as [tm|] eqn:Htm; [|done].
      destruct (wf_handle s Hwf _ _ _ Hcl Ht0) as [_ Hcb].
      by rewrite bool_decide_eq_true_2 by (by apply Hcb).
    + destruct (timers s !! t) as [tm|] eqn:Htm; [|done].
      rewrite bool_decide_eq_false_2; [done|]. intros Hcb.
      destruct (wf_armed s Hwf _ _ Htm) as [Hrt _].
      rewrite Hcb, Hcl in Hrt. simpl in Hrt. congruence.
  - intros t. destruct (timers s !! t) as [tm|] eqn:Htm; [|done].
    rewrite bool_decide_eq_false_2; [done|]. intros Hcb.
    destruct (wf_armed s Hwf _ _ Htm) as [Hrt _].
    rewrite Hcb, Hcl in Hrt. simpl in Hrt. congruence.
Qed.

Lemma teardown_cancels_own_timer_witness :
  reachable (after [Mount true]) ∧
  step Unmount (after [Mount true]) = Some (after [Mount true; Unmount]) ∧
  size (timers (after [Mount true])) = 1%nat ∧
  ∃ c, mounted (after [Mount true]) = Some c ∧ mounted (after [Mount true; Unmount]) = None ∧
    readyState <$> sockets (after [Mount true; Unmount]) =
      readyState <$> sockets (after [Mount true]) ∧
    __WS_SINGLETON__ (after [Mount true; Unmount]) = __WS_SINGLETON__ (after [Mount true]) ∧
    wsRef (after [Mount true; Unmount]) = wsRef (after [Mount true]) ∧
    ∀ t, timers (after [Mount true; Unmount]) !! t =
         match timers (after [Mount true]) !! t with
         | Some tm => if bool_decide (callback tm = c) then None else Some tm
         | None => None
         end.
Proof.
  assert (reachable (after [Mount true])) as Hreach
    by (apply after_reachable; vm_compute; eauto).
  assert (step Unmount (after [Mount true]) = Some (after [Mount true; Unmount])) as Hstep
    by (vm_compute; reflexivity).
  split; [exact Hreach|]. split; [exact Hstep|]. split; [reflexivity|].
  apply (teardown_cancels_own_timer _ _ Hreach Hstep).
Defined.

(** The claim as stated fails: after teardown the socket is still OPEN and
    still the singleton, its listeners are still attached (a later abnormal
    close arms a reconnect); and a timer armed by an earlier instance
    survives the teardown of the current one. *)
Lemma teardown_leaves_connection_open :
  ∃ s1 s2 s3,
    run [Mount false; WsOpen 0; Unmount] (init None) = Some s1 ∧
    mounted s1 = None ∧
    readyState <$> sockets s1 !! 0%nat = Some OPEN ∧
    __WS_SINGLETON__ s1 = Some 0%nat ∧
    listener s1 0 = Some 0%nat ∧
    run [WsClose 0 1006] s1 = Some s2 ∧ size (timers s2) = 1%nat ∧
    run [Mount false; Unmount; Mount false; WsClose 0 1006; Unmount] (init None) = Some s3 ∧
    mounted s3 = None ∧ size (timers s3) = 1%nat.
Proof.
  eexists _, _, _. split; [vm_compute; reflexivity|].
  do 4 (split; [reflexivity|]). split; [vm_compute; reflexivity|].
  split; [reflexivity|]. split; [vm_compute; reflexivity|]. split; reflexivity.
Qed.

(* ===================================================================== *)
(** ** Sending while disconnected *)
(* ===================================================================== *)

Lemma no_open_socket_not_connected s :
  (∀ w k, sockets s !! w = Some k → readyState k ≠ OPEN) → not_connected s = true.
Proof.
  intros H. unfold not_connected, readyState_of.
  destruct (wsRef s) as [w|]; simpl; [|done].
  destruct (sockets s !! w) as [k|] eqn:Hk; simpl; [|done].
  specialize (H _ _ Hk). by destruct (readyState k).
Qed.

(** C7 (as amended).  While [wsRef] holds no open socket (in particular
    while no socket is open at all), [switchUser] returns normally, warns
    on the console, shows the "Not connected to server" error notification
    and changes nothing else: the [switch_user] intent is neither sent nor
    kept anywhere; [handleAccountUpdated] returns normally and changes
    nothing at all: its [get_snapshot] is dropped without a notification. *)
Theorem send_while_disconnected s username :
  not_connected s = true →
  switchUser username s =
    (inr tt,
     set_toasts (λ l, l ++ [not_connected_toast])
       (set_console
          (λ l, l ++ [console_warn [log_str "WS not connected, cannot switch user"]]) s)) ∧
  handleAccountUpdated s = (inr tt, s).
Proof.
  intros H. unfold switchUser, handleAccountUpdated, mbind, M_bind, gets.
  by rewrite H.
Qed.

Lemma send_while_disconnected_witness :
  not_connected (after session_lost) = true ∧
  switchUser "alice" (after session_lost) =
    (inr tt,
     set_toasts (λ l, l ++ [not_connected_toast])
       (set_console
          (λ l, l ++ [console_warn [log_str "WS not connected, cannot switch user"]])
          (after session_lost))) ∧
  handleAccountUpdated (after session_lost) = (inr tt, after session_lost).
Proof.
  assert (not_connected (after session_lost) = true) as H by (vm_compute; reflexivity).
  split; [exact H|]. apply (send_while_disconnected _ "alice" H).
Defined.

(** The claim as stated fails for the refresh intent: with the interface
    rendered and the connection lost, [handleAccountUpdated] drops its
    [get_snapshot] without any notification. *)
Lemma refresh_while_disconnected_is_silent :
  ∃ s s',
    run session_lost (init None) = Some s ∧
    not_connected s = true ∧
    step AccountUpdated s = Some s' ∧
    toasts s' = toasts s ∧ toasts s' = [] ∧ s' = s.
Proof.
  eexists _, _. split; [vm_compute; reflexivity|]. split; [reflexivity|].
  split; [vm_compute; reflexivity|]. repeat split.
Qed.

(* ===================================================================== *)
(** ** Pagination *)
(* ===================================================================== *)







(** When a later response reports fewer pages than the cursor's page, the
    cursor stays where it is, above [total_pages]: next and last are
    disabled and only paging back moves it. *)
Lemma pagination_total_can_shrink_under_cursor :
  let t := Pagination.run [Pagination.LoadDone 5; Pagination.Click Pagination.Last;
                           Pagination.LoadDone 2] Pagination.initial in
  Pagination.page t = 5 ∧ Pagination.totalPages t = 2 ∧
  Pagination.disabled Pagination.Next t = true ∧
  Pagination.disabled Pagination.Last t = true ∧
  Pagination.disabled Pagination.Prev t = false.
Proof. by repeat split. Qed.


(* ===================================================================== *)
(** ** What computations preserve *)
(* ===================================================================== *)

Lemma preserves_ret {A} I (a : A) : preserves I (mret a).
Proof. by intros s. Qed.
Lemma preserves_throw {A} I (e : exn) : preserves I (@throw A e).
Proof. by intros s. Qed.
Lemma preserves_lift {A} I (r : exn + A) : preserves I (lift r).
Proof. by intros s. Qed.
Lemma preserves_gets {A} I (f : State → A) : preserves I (gets f).
Proof. by intros s. Qed.
Lemma preserves_closure I c : preserves I (closure c).
Proof. by intros s. Qed.

Lemma preserves_bind {A B} I (m : M A) (k : A → M B) :
  preserves I m → (∀ a, preserves I (k a)) → preserves I (m ≫= k).
Proof.
  intros Hm Hk s Hs. unfold mbind, M_bind. specialize (Hm s Hs).
  destruct (m s) as [[e|a] s1]; simpl in *; [done|]. by apply Hk.
Qed.

Lemma preserves_try_catch {A} I (m : M A) (h : exn → M A) :
  preserves I m → (∀ e, preserves I (h e)) → preserves I (try_catch m h).
Proof.
  intros Hm Hh s Hs. unfold try_catch. specialize (Hm s Hs).
  destruct (m s) as [[e|a] s1]; simpl in *; [|done]. by apply Hh.
Qed.

Lemma preserves_when I (b : bool) (m : M unit) : preserves I m → preserves I (when b m).
Proof. destruct b; [done | intros _; apply preserves_ret]. Qed.

Lemma preserves_modify I (f : State → State) :
  (∀ s, I s → I (f s)) → preserves I (modify f).
Proof. intros Hf s Hs. by apply Hf. Qed.

Ltac preserves_step :=
  first
    [ apply preserves_bind; [|intros ?]
    | apply preserves_try_catch; [|intros ?]
    | apply preserves_when
    | apply preserves_ret | apply preserves_throw | apply preserves_lift
    | apply preserves_gets | apply preserves_closure
    | match goal with
      | |- preserves _ (if ?b then _ else _) => destruct b
      | |- preserves _ (match ?x with _ => _ end) => destruct x
      end ].

Lemma returns_ret {A} (a : A) : returns (mret a).
Proof. intros s. by eexists. Qed.
Lemma returns_gets {A} (f : State → A) : returns (gets f).
Proof. intros s. by eexists. Qed.
Lemma returns_modify f : returns (modify f).
Proof. intros s. by eexists. Qed.
Lemma returns_closure c : returns (closure c).
Proof. intros s. by eexists. Qed.
Lemma returns_setTimeout c d : returns (setTimeout c d).
Proof. intros s. by eexists. Qed.

Lemma returns_bind {A B} (m : M A) (k : A → M B) :
  returns m → (∀ a, returns (k a)) → returns (m ≫= k).
Proof.
  intros Hm Hk s. unfold mbind, M_bind. destruct (Hm s) as [a Ha].
  destruct (m s) as [[e|a'] s1]; simpl in *; [done|]. apply Hk.
Qed.

Lemma returns_try_catch {A} (m : M A) (h : exn → M A) :
  (∀ e, returns (h e)) → returns (try_catch m h).
Proof.
  intros Hh s. unfold try_catch.
  destruct (m s) as [[e|a] s1] eqn:E; [apply Hh | by eexists].
Qed.

Lemma returns_when (b : bool) (m : M unit) : returns m → returns (when b m).
Proof. destruct b; [done | intros _; apply returns_ret]. Qed.

Ltac returns_step :=
  first
    [ apply returns_try_catch; intros ?
    | apply returns_bind; [|intros ?]
    | apply returns_when
    | apply returns_ret | apply returns_gets | apply returns_modify
    | apply returns_closure | apply returns_setTimeout
    | match goal with
      | |- returns (if ?b then _ else _) => destruct b
      | |- returns (match ?x with _ => _ end) => destruct x
      end ].

Lemma returns_console_log e : returns (console_log e).
Proof. apply returns_modify. Qed.
Lemma returns_toast t : returns (toast t).
Proof. apply returns_modify. Qed.

Lemma returns_connectWebSocket c throws : returns (connectWebSocket c throws).
Proof.
  unfold connectWebSocket, set_reconnectTimer.
  repeat first [apply returns_console_log | returns_step].
Qed.

Lemma returns_effect_body c throws : returns (effect_body c throws).
Proof.
  unfold effect_body. repeat first [apply returns_connectWebSocket | returns_step].
Qed.

Lemma returns_effect_cleanup c : returns (effect_cleanup c).
Proof. unfold effect_cleanup, clearTimeout. repeat returns_step. Qed.

Lemma returns_handleClose c code : returns (handleClose c code).
Proof. unfold handleClose, set_reconnectTimer. repeat returns_step. Qed.

Lemma returns_handleError c : returns (handleError c).
Proof. unfold handleError. repeat first [apply returns_console_log | returns_step]. Qed.

Lemma returns_handleMessage c data : returns (handleMessage c data).
Proof. unfold handleMessage. repeat first [apply returns_console_log | returns_step]. Qed.

Lemma returns_switchUser u : returns (switchUser u).
Proof.
  unfold switchUser.
  repeat first [apply returns_console_log | apply returns_toast | returns_step].
Qed.

(** ** Events as state equations *)

Lemma open_event s w s' :
  wf s → step (WsOpen w) s = Some s' →
  ∃ k, sockets s !! w = Some k ∧ readyState k = CONNECTING ∧
    s' = set_sockets (transmit w (bootstrap "default" 10000)) (set_readyState w OPEN s).
Proof.
  intros Hwf Hstep. simpl in Hstep.
  destruct (sockets s !! w) as [k|] eqn:Hk; [|done]. simpl in Hstep.
  destruct (readyState k) eqn:Hr; simplify_eq. exists k. split; [done|]. split; [done|].
  assert (wired s w = Some (CONNECTING, handlers k)) as Hw.
  { unfold wired. rewrite Hk. simpl. by rewrite Hr. }
  destruct (wf_listeners s Hwf _ _ _ Hw) as (c & Hh & _). rewrite Hh in Hw.
  assert (ws <$> effects s !! c = Some (Some w)) as Hc by (by eapply wf_current).
  destruct (effects s !! c) as [cl|] eqn:Hcl; [|done]. simpl in Hc.
  assert (sockets (set_readyState w OPEN s) !! w =
            Some (mkWebSocket (url k) OPEN (handlers k) (sent k))) as Hk'.
  { unfold set_readyState; simpl. rewrite Hk.
    apply list_lookup_insert_eq. by eapply lookup_lt_Some. }
  rewrite run_dispatch. unfold listener. rewrite Hk'. simpl. rewrite Hh.
  unfold run_callback, handleOpen, mbind, M_bind, closure. simpl. rewrite Hcl. simpl.
  injection Hc as ->. simpl.
  by erewrite send_open by (exact Hk' || done).
Qed.

Lemma connected_socket s :
  not_connected s = false →
  ∃ w k, wsRef s = Some w ∧ sockets s !! w = Some k ∧ readyState k = OPEN.
Proof.
  unfold not_connected, readyState_of. destruct (wsRef s) as [w|]; simpl; [|done].
  destruct (sockets s !! w) as [k|] eqn:Hk; simpl; [|done].
  destruct (readyState k) eqn:Hr; try done. intros _. eauto.
Qed.

Lemma handleAccountUpdated_connected s w :
  not_connected s = false → wsRef s = Some w →
  handleAccountUpdated s = (inr tt, set_sockets (transmit w get_snapshot) s).
Proof.
  intros Hc Hw. destruct (connected_socket s Hc) as (w' & k & Hw' & Hk & Hr).
  rewrite Hw in Hw'. injection Hw' as <-.
  unfold handleAccountUpdated, mbind, M_bind, gets. rewrite Hc, Hw. simpl.
  by erewrite send_open.
Qed.

Lemma switchUser_connected s w username :
  not_connected s = false → wsRef s = Some w →
  switchUser username s =
    (inr tt,
     set_toasts (λ l, l ++ [toast_plain "Switching account..." icon_cycle])
       (set_sockets (transmit w (switch_user username)) s)).
Proof.
  intros Hc Hw. destruct (connected_socket s Hc) as (w' & k & Hw' & Hk & Hr).
  rewrite Hw in Hw'. injection Hw' as <-.
  unfold switchUser, try_catch, mbind, M_bind, gets. rewrite Hc, Hw. simpl.
  by erewrite send_open.
Qed.

Lemma run_returns (m : M unit) s : returns m → run_callback m s = (m s).2.
Proof.
  intros Hm. unfold run_callback. destruct (Hm s) as [a Ha].
  by destruct (m s) as [[e|[]] s1].
Qed.

Lemma run_handleAccountUpdated s :
  run_callback handleAccountUpdated s = (handleAccountUpdated s).2.
Proof.
  unfold run_callback.
  destruct (not_connected s) eqn:Hc.
  - unfold handleAccountUpdated, mbind, M_bind, gets. by rewrite Hc.
  - destruct (connected_socket s Hc) as (w & k & Hw & _).
    by rewrite (handleAccountUpdated_connected s w).
Qed.

(** ** No exception escapes *)

Lemma calm_ext s s' : console s' = console s → calm s → calm s'.
Proof. intros H Hs e. rewrite H. apply Hs. Qed.

Lemma preserves_calm_modify f :
  (∀ s, console (f s) = console s) → preserves calm (modify f).
Proof. intros Hf. apply preserves_modify. intros s. by apply calm_ext. Qed.

Lemma preserves_calm_console_log e :
  (∀ x, e ≠ uncaught x) → preserves calm (console_log e).
Proof.
  intros He s Hs x. unfold console_log, modify; simpl.
  rewrite elem_of_app, list_elem_of_singleton. intros [Hin | Heq]; [by apply (Hs x)|].
  by apply (He x).
Qed.

Lemma preserves_calm_send_on r m : preserves calm (send_on r m).
Proof.
  intros s Hs. destruct r as [w|]; [|done]. unfold send_on, send.
  destruct (sockets s !! w) as [k|]; [|done]. by destruct (readyState k).
Qed.

Lemma preserves_calm_setTimeout c d : preserves calm (setTimeout c d).
Proof. by intros s Hs. Qed.

Lemma preserves_calm_new_WebSocket b u : preserves calm (new_WebSocket b u).
Proof. intros s Hs. unfold new_WebSocket. by destruct b. Qed.

Ltac calm_step :=
  first
    [ apply preserves_calm_send_on | apply preserves_calm_setTimeout
    | apply preserves_calm_new_WebSocket
    | apply preserves_calm_console_log; by intros ?
    | apply preserves_calm_modify; by intros ?
    | preserves_step ].

Lemma preserves_calm_connectWebSocket c b : preserves calm (connectWebSocket c b).
Proof.
  unfold connectWebSocket, connectWebSocket_body, resolveWsUrl, set_ws,
    set_reconnectTimer, addEventListeners.
  repeat calm_step.
Qed.

Lemma preserves_calm_effect_body c b : preserves calm (effect_body c b).
Proof.
  unfold effect_body. repeat first [apply preserves_calm_connectWebSocket | calm_step].
Qed.

Lemma preserves_calm_effect_cleanup c : preserves calm (effect_cleanup c).
Proof. unfold effect_cleanup, clearTimeout. repeat calm_step. Qed.

Lemma preserves_calm_handleClose c code : preserves calm (handleClose c code).
Proof. unfold handleClose, set_reconnectTimer. repeat calm_step. Qed.

Lemma preserves_calm_handleError c : preserves calm (handleError c).
Proof. unfold handleError. repeat calm_step. Qed.

Lemma preserves_calm_handleMessage c data : preserves calm (handleMessage c data).
Proof. unfold handleMessage, toast, setUser, setAccount, setOverview. repeat calm_step. Qed.

Lemma preserves_calm_switchUser u : preserves calm (switchUser u).
Proof. unfold switchUser, toast. repeat calm_step. Qed.

Lemma preserves_calm_handleAccountUpdated : preserves calm handleAccountUpdated.
Proof. unfold handleAccountUpdated. repeat calm_step. Qed.

Lemma calm_run (m : M unit) s :
  preserves calm m → returns m → calm s → calm (run_callback m s).
Proof. intros Hp Hr Hs. rewrite run_returns by done. by apply Hp. Qed.

Lemma calm_dispatch w (h : nat → M unit) s :
  (∀ c, preserves calm (h c)) → (∀ c, returns (h c)) → calm s →
  calm (run_callback (dispatch w h) s).
Proof.
  intros Hp Hr Hs. rewrite run_dispatch.
  destruct (listener s w); [by apply calm_run | done].
Qed.

Lemma calm_step_event e s s' : wf s → calm s → step e s = Some s' → calm s'.
Proof.
  intros Hwf Hs Hstep. destruct e.
  - simpl in Hstep. destruct (mounted s); simplify_eq.
    eapply calm_ext; [done|].
    apply calm_run; [apply preserves_calm_effect_body | apply returns_effect_body | done].
  - simpl in Hstep. destruct (mounted s); simplify_eq.
    eapply calm_ext; [done|].
    apply calm_run; [apply preserves_calm_effect_cleanup | apply returns_effect_cleanup | done].
  - simpl in Hstep. case_match; simplify_eq. by eapply calm_ext.
  - destruct (fire_event _ _ _ _ Hstep) as (tm & _ & _ & ->).
    apply calm_run;
      [apply preserves_calm_connectWebSocket | apply returns_connectWebSocket|].
    by eapply calm_ext.
  - destruct (open_event _ _ _ Hwf Hstep) as (k & _ & _ & ->). by eapply calm_ext.
  - simpl in Hstep. repeat case_match; simplify_eq.
    apply calm_dispatch; [intros; apply preserves_calm_handleMessage
                         | intros; apply returns_handleMessage | done].
  - simpl in Hstep. repeat case_match; simplify_eq; by eapply calm_ext.
  - destruct (close_event _ _ _ _ Hwf Hstep) as (r & c & _ & _ & ->).
    apply calm_run; [apply preserves_calm_handleClose | apply returns_handleClose|].
    by eapply calm_ext.
  - simpl in Hstep. case_match; simplify_eq.
    apply calm_dispatch; [apply preserves_calm_handleError | apply returns_handleError | done].
  - simpl in Hstep. case_match; simplify_eq.
    apply calm_run; [apply preserves_calm_switchUser | apply returns_switchUser | done].
  - simpl in Hstep. case_match; simplify_eq.
    rewrite run_handleAccountUpdated. by apply preserves_calm_handleAccountUpdated.
Qed.

(** X1.  In every state the page can reach, whatever the interleaving of
    effect runs and cleanups, timers, socket events (with any frame and any
    close code) and user callbacks, no exception has escaped any callback:
    every throw inside [connectWebSocket], [handleOpen], [handleMessage],
    [handleClose], [handleError], [switchUser] and [handleAccountUpdated]
    is caught or cannot happen. *)
Theorem no_exception_escapes s : reachable s → ∀ e, uncaught e ∉ console s.
Proof.
  induction 1 as [loc|s e s' Hreach IH Hstep].
  - intros e. simpl. apply not_elem_of_nil.
  - eapply calm_step_event; [by apply reachable_wf | exact IH | exact Hstep].
Qed.

(** ** What goes out on a socket *)

Lemma streams_ok_ext s s' : sockets s' = sockets s → streams_ok s → streams_ok s'.
Proof. intros H Hs w k. rewrite H. apply Hs. Qed.

Lemma preserves_streams_modify f :
  (∀ s, sockets (f s) = sockets s) → preserves streams_ok (modify f).
Proof. intros Hf. apply preserves_modify. intros s. by apply streams_ok_ext. Qed.

Lemma stream_ok_transmit k m :
  is_bootstrap m = false → readyState k = OPEN → stream_ok k →
  stream_ok (mkWebSocket (url k) OPEN (handlers k) (sent k ++ [m])).
Proof.
  unfold stream_ok. intros Hm Hr. simpl. destruct (sent k) as [|m0 rest]; simpl.
  - by rewrite Hr.
  - intros (-> & _ & Hrest). repeat split; [done|].
    apply Forall_app. split; [done|]. by apply Forall_singleton.
Qed.

Lemma preserves_streams_send_on r m :
  is_bootstrap m = false → preserves streams_ok (send_on r m).
Proof.
  intros Hm s Hs. destruct r as [w|]; [|done]. unfold send_on, send.
  destruct (sockets s !! w) as [k|] eqn:Hk; [|done].
  destruct (readyState k) eqn:Hr; try done. simpl.
  intros w' k'. simpl. destruct (decide (w' = w)) as [->|Hne].
  - rewrite list_lookup_insert_eq by (by eapply lookup_lt_Some). intros [= <-].
    apply stream_ok_transmit; [done | done | by eapply Hs].
  - rewrite list_lookup_insert_ne by done. apply Hs.
Qed.

Ltac streams_step :=
  first
    [ apply preserves_streams_send_on; reflexivity
    | apply preserves_streams_modify; by intros ?
    | preserves_step ].

Lemma preserves_streams_handleMessage c data : preserves streams_ok (handleMessage c data).
Proof.
  unfold handleMessage, toast, setUser, setAccount, setOverview, console_log.
  repeat streams_step.
Qed.

Lemma preserves_streams_handleError c : preserves streams_ok (handleError c).
Proof. unfold handleError, console_log. repeat streams_step. Qed.

Lemma preserves_streams_switchUser u : preserves streams_ok (switchUser u).
Proof. unfold switchUser, toast, console_log. repeat streams_step. Qed.

Lemma preserves_streams_handleAccountUpdated : preserves streams_ok handleAccountUpdated.
Proof. unfold handleAccountUpdated. repeat streams_step. Qed.

Lemma streams_ok_callback (m : M unit) s :
  preserves streams_ok m → streams_ok s → streams_ok (run_callback m s).
Proof.
  intros Hp Hs. unfold run_callback. specialize (Hp s Hs).
  destruct (m s) as [[e|[]] s1]; simpl in *; [by eapply streams_ok_ext | done].
Qed.

Lemma streams_ok_dispatch w (h : nat → M unit) s :
  (∀ c, preserves streams_ok (h c)) → streams_ok s →
  streams_ok (run_callback (dispatch w h) s).
Proof.
  intros Hp Hs. rewrite run_dispatch.
  destruct (listener s w); [by apply streams_ok_callback | done].
Qed.

Lemma streams_ok_set_readyState s w r :
  r ≠ OPEN ∧ r ≠ CONNECTING ∨ (r = OPEN ∧ ∃ k, sockets s !! w = Some k ∧ sent k ≠ []) →
  streams_ok s → streams_ok (set_readyState w r s).
Proof.
  intros Hr Hs w' k'. unfold set_readyState; simpl.
  destruct (sockets s !! w) as [k|] eqn:Hk; [|apply Hs].
  destruct (decide (w' = w)) as [->|Hne].
  - rewrite list_lookup_insert_eq by (by eapply lookup_lt_Some). intros [= <-].
    specialize (Hs _ _ Hk). unfold stream_ok in *; simpl.
    destruct (sent k) as [|m rest] eqn:Hsent.
    + destruct Hr as [[? ?] | [_ (k0 & Hk0 & Hne)]]; [done|]. congruence.
    + destruct Hs as (? & ? & ?). repeat split; try done.
      destruct Hr as [[? ?] | [-> _]]; done.
  - rewrite list_lookup_insert_ne by done. apply Hs.
Qed.

Lemma streams_ok_open s w k :
  sockets s !! w = Some k → readyState k = CONNECTING → streams_ok s →
  streams_ok (set_sockets (transmit w (bootstrap "default" 10000)) (set_readyState w OPEN s)).
Proof.
  intros Hk Hr Hs w' k'. unfold transmit, set_readyState; simpl. rewrite Hk.
  rewrite list_lookup_insert_eq by (by eapply lookup_lt_Some). simpl.
  rewrite list_insert_insert_eq.
  destruct (decide (w' = w)) as [->|Hne].
  - rewrite list_lookup_insert_eq by (by eapply lookup_lt_Some). intros [= <-].
    specialize (Hs _ _ Hk). unfold stream_ok in *; simpl.
    destruct (sent k) as [|m rest]; simpl; [done|].
    destruct Hs as (_ & Hc & _). by rewrite Hr in Hc.
  - rewrite list_lookup_insert_ne by done. apply Hs.
Qed.

Lemma streams_ok_connectWebSocket c b s :
  streams_ok s → streams_ok (run_callback (connectWebSocket c b) s).
Proof.
  intros Hs. unfold run_callback. destruct b.
  - rewrite connectWebSocket_catches. by eapply streams_ok_ext.
  - destruct (connectWebSocket_constructs c s) as [u ->].
    intros w k; simpl. rewrite lookup_app_Some. intros [Hk | [_ Hk]]; [by eapply Hs|].
    apply list_lookup_singleton_Some in Hk as [_ <-]. by unfold stream_ok.
Qed.

Lemma streams_ok_handleClose c code s :
  streams_ok s → streams_ok (run_callback (handleClose c code) s).
Proof.
  intros Hs. unfold run_callback. destruct (abnormal code) eqn:Hcode.
  - rewrite handleClose_abnormal by done. eapply streams_ok_ext; [|exact Hs].
    simpl. unfold after_close_refs. by case_bool_decide.
  - rewrite handleClose_normal by done. eapply streams_ok_ext; [|exact Hs].
    unfold after_close_refs. by case_bool_decide.
Qed.

Lemma streams_ok_step e s s' : wf s → streams_ok s → step e s = Some s' → streams_ok s'.
Proof.
  intros Hwf Hs Hstep. destruct e.
  - simpl in Hstep. destruct (mounted s); simplify_eq.
    eapply streams_ok_ext; [done|]. rewrite effect_body_unfold.
    destruct (created s); [apply streams_ok_connectWebSocket|]; by eapply streams_ok_ext.
  - simpl in Hstep. destruct (mounted s); simplify_eq.
    eapply streams_ok_ext; [|exact Hs].
    unfold run_callback, effect_cleanup, mbind, M_bind, closure; simpl.
    by destruct (reconnectTimer _).
  - simpl in Hstep. case_match; simplify_eq. by eapply streams_ok_ext.
  - destruct (fire_event _ _ _ _ Hstep) as (tm & _ & _ & ->).
    apply streams_ok_connectWebSocket. by eapply streams_ok_ext.
  - destruct (open_event _ _ _ Hwf Hstep) as (k & Hk & Hr & ->).
    by eapply streams_ok_open.
  - simpl in Hstep. repeat case_match; simplify_eq.
    apply streams_ok_dispatch; [intros; apply preserves_streams_handleMessage | done].
  - simpl in Hstep. repeat case_match; simplify_eq;
      apply streams_ok_set_readyState; try done; by left.
  - destruct (close_event _ _ _ _ Hwf Hstep) as (r & c & _ & _ & ->).
    apply streams_ok_handleClose, streams_ok_set_readyState; [by left | done].
  - simpl in Hstep. case_match; simplify_eq.
    apply streams_ok_dispatch; [apply preserves_streams_handleError | done].
  - simpl in Hstep. case_match; simplify_eq.
    apply streams_ok_callback; [apply preserves_streams_switchUser | done].
  - simpl in Hstep. case_match; simplify_eq.
    apply streams_ok_callback; [apply preserves_streams_handleAccountUpdated | done].
Qed.

(** X2.  On every socket of a reachable state the first frame sent is the
    bootstrap message of [handleOpen] (user "default", capital 10000) and no
    second bootstrap follows it; nothing has been sent on a socket that is
    still CONNECTING, and an OPEN socket has already been sent its
    bootstrap. *)
Theorem bootstrap_opens_every_stream s w k :
  reachable s → sockets s !! w = Some k →
  (readyState k = CONNECTING → sent k = []) ∧
  (readyState k = OPEN → sent k ≠ []) ∧
  (sent k = [] ∨
   ∃ rest, sent k = bootstrap "default" 10000 :: rest ∧
           Forall (λ m, is_bootstrap m = false) rest).
Proof.
  intros Hreach Hk.
  assert (streams_ok s) as Hs.
  { clear Hk. induction Hreach as [loc|s e s' Hreach IH Hstep].
    - by intros w' k'.
    - eapply streams_ok_step; [by apply reachable_wf | exact IH | exact Hstep]. }
  specialize (Hs _ _ Hk). unfold stream_ok in Hs.
  destruct (sent k) as [|m rest].
  - split; [done|]. split; [by intros Hr | by left].
  - destruct Hs as (-> & Hc & Hrest). split; [done|]. split; [done|].
    right. by eexists.
Qed.

(** ** Where the sockets point *)

Lemma wsUrl_at_location s s' : location s' = location s → wsUrl_at s' = wsUrl_at s.
Proof.
  intros H. unfold wsUrl_at, resolveWsUrl, mbind, M_bind, gets. rewrite H.
  destruct (location s) as [l|]; [|done]. by destruct (_ || _).
Qed.

Lemma wsUrl_at_cases s :
  wsUrl_at s = inr "ws://localhost:5611/ws" ∧
    (location s = None ∨
     ∃ l, location s = Some l ∧ (hostname l = "localhost" ∨ hostname l = "127.0.0.1")) ∨
  ∃ l, location s = Some l ∧ hostname l ≠ "localhost" ∧ hostname l ≠ "127.0.0.1" ∧
    wsUrl_at s =
      inr ((if bool_decide (protocol l = "https:") then "wss:" else "ws:")
             +:+ "//" +:+ host l +:+ "/ws").
Proof.
  unfold wsUrl_at, resolveWsUrl, mbind, M_bind, gets.
  destruct (location s) as [l|]; [|left; split; [done | by left]].
  destruct (decide (hostname l = "localhost")) as [Hl|Hl].
  { left. rewrite bool_decide_eq_true_2 by done. simpl. split; [done|]. right. eauto. }
  destruct (decide (hostname l = "127.0.0.1")) as [Hi|Hi].
  { left. rewrite (bool_decide_eq_true_2 (hostname l = "127.0.0.1")) by done.
    rewrite orb_true_r. split; [done|]. right. eauto. }
  right. exists l. rewrite !bool_decide_eq_false_2 by done. simpl. done.
Qed.

Lemma urls_ok_ext s s' :
  location s' = location s → url <$> sockets s' = url <$> sockets s →
  urls_ok s → urls_ok s'.
Proof.
  intros Hl Hu Hs w k Hk. rewrite (wsUrl_at_location _ _ Hl).
  assert (url <$> sockets s !! w = Some (url k)) as Hw.
  { by rewrite <- list_lookup_fmap, <- Hu, list_lookup_fmap, Hk. }
  destruct (sockets s !! w) as [k0|] eqn:Hk0; [|done].
  injection Hw as <-. by eapply Hs.
Qed.

Lemma urls_ok_same s s' :
  urls_ok s → location s' = location s → sockets s' = sockets s → urls_ok s'.
Proof. intros Hs Hl Hk. apply (urls_ok_ext s); [done | by rewrite Hk | done]. Qed.

Lemma urls_transmit w m l : url <$> transmit w m l = url <$> l.
Proof.
  unfold transmit. destruct (l !! w) as [k|] eqn:Hk; [|done].
  rewrite list_fmap_insert. simpl. apply list_insert_id.
  by rewrite list_lookup_fmap, Hk.
Qed.

Lemma urls_set_readyState w r s :
  url <$> sockets (set_readyState w r s) = url <$> sockets s.
Proof.
  unfold set_readyState; simpl. destruct (sockets s !! w) as [k|] eqn:Hk; [|done].
  rewrite list_fmap_insert. simpl. apply list_insert_id.
  by rewrite list_lookup_fmap, Hk.
Qed.

Lemma preserves_urls_modify f :
  (∀ s, location (f s) = location s ∧ sockets (f s) = sockets s) →
  preserves urls_ok (modify f).
Proof.
  intros Hf. apply preserves_modify. intros s.
  destruct (Hf s) as [Hl Hk]. apply urls_ok_ext; [done | by rewrite Hk].
Qed.

Lemma preserves_urls_send_on r m : preserves urls_ok (send_on r m).
Proof.
  intros s Hs. destruct r as [w|]; [|done]. unfold send_on, send.
  destruct (sockets s !! w) as [k|] eqn:Hk; [|done].
  destruct (readyState k) eqn:Hr; try done. simpl.
  apply (urls_ok_ext s); [done| |exact Hs]. simpl.
  rewrite list_fmap_insert. simpl. apply list_insert_id.
  by rewrite list_lookup_fmap, Hk.
Qed.

Ltac urls_step :=
  first
    [ apply preserves_urls_send_on
    | apply preserves_urls_modify; by intros ?
    | preserves_step ].

Lemma preserves_urls_handleMessage c data : preserves urls_ok (handleMessage c data).
Proof.
  unfold handleMessage, toast, setUser, setAccount, setOverview, console_log.
  repeat urls_step.
Qed.

Lemma preserves_urls_handleError c : preserves urls_ok (handleError c).
Proof. unfold handleError, console_log. repeat urls_step. Qed.

Lemma preserves_urls_switchUser u : preserves urls_ok (switchUser u).
Proof. unfold switchUser, toast, console_log. repeat urls_step. Qed.

Lemma preserves_urls_handleAccountUpdated : preserves urls_ok handleAccountUpdated.
Proof. unfold handleAccountUpdated. repeat urls_step. Qed.

Lemma urls_ok_callback (m : M unit) s :
  preserves urls_ok m → urls_ok s → urls_ok (run_callback m s).
Proof.
  intros Hp Hs. unfold run_callback. specialize (Hp s Hs).
  destruct (m s) as [[e|[]] s1]; simpl in *; [by apply (urls_ok_ext s1) | done].
Qed.

Lemma urls_ok_dispatch w (h : nat → M unit) s :
  (∀ c, preserves urls_ok (h c)) → urls_ok s → urls_ok (run_callback (dispatch w h) s).
Proof.
  intros Hp Hs. rewrite run_dispatch.
  destruct (listener s w); [by apply urls_ok_callback | done].
Qed.

Lemma connectWebSocket_constructs_at c s :
  ∃ u, wsUrl_at s = inr u ∧
    connectWebSocket c false s =
      (inr tt,
       set_sockets (λ l, l ++ [mkWebSocket u CONNECTING (Some c) []])
         (set_wsRef (Some (length (sockets s)))
            (set_singleton (Some (length (sockets s)))
               (set_effects (with_ws c (Some (length (sockets s)))) s)))).
Proof.
  destruct (resolveWsUrl_reads s) as [u Hu]. exists u.
  split; [unfold wsUrl_at; by rewrite Hu|].
  unfold connectWebSocket, try_catch, connectWebSocket_body, mbind, M_bind.
  rewrite Hu. simpl.
  unfold set_sockets at 1; simpl.
  rewrite lookup_app_r, Nat.sub_diag by done. simpl.
  unfold set_sockets, set_wsRef, set_singleton, set_effects, with_ws; simpl.
  do 2 f_equal.
  replace (length (sockets s)) with (length (sockets s) + 0)%nat at 1 by lia.
  by rewrite insert_app_r.
Qed.

Lemma urls_ok_connectWebSocket c b s :
  urls_ok s → urls_ok (run_callback (connectWebSocket c b) s).
Proof.
  intros Hs. unfold run_callback. destruct b.
  - rewrite connectWebSocket_catches. by eapply urls_ok_same.
  - destruct (connectWebSocket_constructs_at c s) as (u & Hu & ->).
    intros w k; simpl. intros Hk. rewrite (wsUrl_at_location s) by done.
    apply lookup_app_Some in Hk as [Hk | [_ Hk]]; [by eapply Hs|].
    by apply list_lookup_singleton_Some in Hk as [_ <-].
Qed.

Lemma urls_ok_handleClose c code s :
  urls_ok s → urls_ok (run_callback (handleClose c code) s).
Proof.
  intros Hs. unfold run_callback. destruct (abnormal code) eqn:Hcode.
  - rewrite handleClose_abnormal by done. eapply urls_ok_same; [exact Hs|..];
      simpl; unfold after_close_refs; by case_bool_decide.
  - rewrite handleClose_normal by done. eapply urls_ok_same; [exact Hs|..];
      unfold after_close_refs; by case_bool_decide.
Qed.

Lemma urls_ok_step e s s' : wf s → urls_ok s → step e s = Some s' → urls_ok s'.
Proof.
  intros Hwf Hs Hstep. destruct e.
  - simpl in Hstep. destruct (mounted s); simplify_eq.
    apply (urls_ok_same (run_callback (effect_body (length (effects s)) throws) s));
      [|done..].
    rewrite effect_body_unfold.
    destruct (created s); [apply urls_ok_connectWebSocket|]; by apply (urls_ok_same s).
  - simpl in Hstep. destruct (mounted s); simplify_eq.
    eapply urls_ok_same; [exact Hs|..];
      unfold run_callback, effect_cleanup, mbind, M_bind, closure; simpl;
      by destruct (reconnectTimer _).
  - simpl in Hstep. case_match; simplify_eq. by eapply urls_ok_same.
  - destruct (fire_event _ _ _ _ Hstep) as (tm & _ & _ & ->).
    apply urls_ok_connectWebSocket. by eapply urls_ok_same.
  - destruct (open_event _ _ _ Hwf Hstep) as (k & Hk & Hr & ->).
    apply (urls_ok_ext s); [done | |exact Hs]. simpl.
    by rewrite urls_transmit, <- (urls_set_readyState w OPEN s).
  - simpl in Hstep. repeat case_match; simplify_eq.
    apply urls_ok_dispatch; [intros; apply preserves_urls_handleMessage | done].
  - simpl in Hstep. repeat case_match; simplify_eq;
      (apply (urls_ok_ext s); [done | apply urls_set_readyState | done]).
  - destruct (close_event _ _ _ _ Hwf Hstep) as (r & c & _ & _ & ->).
    apply urls_ok_handleClose.
    apply (urls_ok_ext s); [done | apply urls_set_readyState | done].
  - simpl in Hstep. case_match; simplify_eq.
    apply urls_ok_dispatch; [apply preserves_urls_handleError | done].
  - simpl in Hstep. case_match; simplify_eq.
    apply urls_ok_callback; [apply preserves_urls_switchUser | done].
  - simpl in Hstep. case_match; simplify_eq.
    apply urls_ok_callback; [apply preserves_urls_handleAccountUpdated | done].
Qed.

(** X3.  Every socket ever constructed targets the URL [resolveWsUrl]
    answers for the page's location: the development URL without a
    [window] or on localhost / 127.0.0.1, otherwise [wss:] (for an https
    page) or [ws:], the page's own host and the path [/ws]. *)
Theorem every_socket_targets_resolved_url s w k :
  reachable s → sockets s !! w = Some k →
  wsUrl_at s = inr (url k) ∧
  (url k = "ws://localhost:5611/ws" ∧
     (location s = None ∨
      ∃ l, location s = Some l ∧ (hostname l = "localhost" ∨ hostname l = "127.0.0.1")) ∨
   ∃ l, location s = Some l ∧ hostname l ≠ "localhost" ∧ hostname l ≠ "127.0.0.1" ∧
     url k = (if bool_decide (protocol l = "https:") then "wss:" else "ws:")
               +:+ "//" +:+ host l +:+ "/ws").
Proof.
  intros Hreach Hk.
  assert (urls_ok s) as Hs.
  { clear Hk. induction Hreach as [loc|s e s' Hreach IH Hstep].
    - by intros w' k'.
    - eapply urls_ok_step; [by apply reachable_wf | exact IH | exact Hstep]. }
  specialize (Hs _ _ Hk). split; [done|].
  destruct (wsUrl_at_cases s) as [[Hu Hl] | (l & Hl & H1 & H2 & Hu)];
    rewrite Hs in Hu; injection Hu as Hu.
  - by left.
  - right. by exists l.
Qed.

(** ** The references never name a closed socket *)

Lemma ref_live_ext s s' r :
  readyState <$> sockets s' = readyState <$> sockets s → ref_live s r → ref_live s' r.
Proof.
  intros H. unfold ref_live. destruct r as [w|]; [|done].
  by rewrite <- !list_lookup_fmap, H.
Qed.

Lemma refs_live_ext s s' :
  readyState <$> sockets s' = readyState <$> sockets s →
  __WS_SINGLETON__ s' = __WS_SINGLETON__ s → wsRef s' = wsRef s →
  refs_live s → refs_live s'.
Proof.
  intros H H1 H2 [Ha Hb]. unfold refs_live. rewrite H1, H2.
  split; by eapply ref_live_ext.
Qed.

Lemma refs_live_wiring s s' : wiring s' = wiring s → refs_live s → refs_live s'.
Proof.
  unfold wiring. intros [= _ H H1 H2 _ _ _ _]. apply refs_live_ext; [|done..].
  apply (f_equal (fmap fst)) in H. by rewrite <- !list_fmap_compose in H.
Qed.

Lemma refs_live_quiet (m : M unit) s :
  quiet m → refs_live s → refs_live (run_callback m s).
Proof.
  intros Hq Hs. unfold run_callback. specialize (Hq s).
  destruct (m s) as [[e|[]] s1]; simpl in *; eapply refs_live_wiring; eauto.
Qed.

Lemma ref_live_set_readyState s w r st :
  st ≠ CLOSED → ref_live s r → ref_live (set_readyState w st s) r.
Proof.
  intros Hst. unfold ref_live, set_readyState. destruct r as [w'|]; [|done]. simpl.
  destruct (sockets s !! w) as [k|] eqn:Hk; [|done].
  destruct (decide (w' = w)) as [->|Hne].
  - by rewrite list_lookup_insert_eq by (by eapply lookup_lt_Some).
  - by rewrite list_lookup_insert_ne.
Qed.

Lemma ref_live_closed_other s w r :
  r ≠ Some w → ref_live s r → ref_live (set_readyState w CLOSED s) r.
Proof.
  intros Hne. unfold ref_live, set_readyState. destruct r as [w'|]; [|done]. simpl.
  destruct (sockets s !! w) as [k|] eqn:Hk; [|done].
  rewrite list_lookup_insert_ne; [done|]. congruence.
Qed.

Lemma refs_live_connectWebSocket c b s :
  refs_live s → refs_live (run_callback (connectWebSocket c b) s).
Proof.
  intros Hs. unfold run_callback. destruct b.
  - rewrite connectWebSocket_catches. by eapply refs_live_ext.
  - destruct (connectWebSocket_constructs c s) as [u ->].
    unfold refs_live, ref_live; simpl.
    by rewrite lookup_app_r, Nat.sub_diag.
Qed.

Lemma refs_live_step e s s' : wf s → refs_live s → step e s = Some s' → refs_live s'.
Proof.
  intros Hwf Hs Hstep. destruct e.
  - simpl in Hstep. destruct (mounted s); simplify_eq.
    apply (refs_live_ext (run_callback (effect_body (length (effects s)) throws) s));
      [done..|].
    rewrite effect_body_unfold. destruct (created s).
    + apply refs_live_connectWebSocket. by apply (refs_live_ext s).
    + destruct Hs as [Ha Hb]. by split.
  - simpl in Hstep. destruct (mounted s); simplify_eq.
    apply (refs_live_ext s); [..|done];
      unfold run_callback, effect_cleanup, mbind, M_bind, closure; simpl;
      by destruct (reconnectTimer _).
  - simpl in Hstep. case_match; simplify_eq. by apply (refs_live_ext s).
  - destruct (fire_event _ _ _ _ Hstep) as (tm & _ & _ & ->).
    apply refs_live_connectWebSocket. by apply (refs_live_ext s).
  - simpl in Hstep. repeat case_match; simplify_eq.
    apply refs_live_quiet; [apply quiet_dispatch, quiet_handleOpen|].
    destruct Hs as [Ha Hb]. split; by apply ref_live_set_readyState.
  - simpl in Hstep. repeat case_match; simplify_eq.
    apply refs_live_quiet; [|done]. apply quiet_dispatch. intros; apply quiet_handleMessage.
  - simpl in Hstep. destruct Hs as [Ha Hb].
    repeat case_match; simplify_eq; split; by apply ref_live_set_readyState.
  - destruct (close_event _ _ _ _ Hwf Hstep) as (r & c & Hw & Hr & ->).
    assert (ws (closure_of s c) = Some w) as Hc.
    { pose proof (wf_current s Hwf _ _ _ Hw Hr) as H. unfold closure_of.
      destruct (effects s !! c); by simplify_eq/=. }
    destruct Hs as [Ha Hb].
    assert (refs_live (after_close_refs c (set_readyState w CLOSED s))) as Hafter.
    { unfold after_close_refs, closure_of; simpl. fold (closure_of s c). rewrite Hc.
      case_bool_decide as Href; split; simpl; try done.
      apply ref_live_closed_other; done. }
    unfold run_callback. destruct (abnormal code) eqn:Hcode.
    + rewrite handleClose_abnormal by done.
      apply (refs_live_ext (after_close_refs c (set_readyState w CLOSED s))); done.
    + by rewrite handleClose_normal.
  - simpl in Hstep. case_match; simplify_eq.
    apply refs_live_quiet; [apply quiet_dispatch, quiet_handleError | done].
  - simpl in Hstep. case_match; simplify_eq.
    apply refs_live_quiet; [apply quiet_switchUser | done].
  - simpl in Hstep. case_match; simplify_eq.
    apply refs_live_quiet; [apply quiet_handleAccountUpdated | done].
Qed.

(** X4.  Neither the module-level singleton nor [wsRef.current] ever
    refers to a socket that is CLOSED: each is null or names an existing
    socket that is CONNECTING, OPEN or CLOSING. *)
Theorem references_never_name_closed_socket s w :
  reachable s → __WS_SINGLETON__ s = Some w ∨ wsRef s = Some w →
  ∃ k, sockets s !! w = Some k ∧ readyState k ≠ CLOSED.
Proof.
  intros Hreach Hw.
  assert (refs_live s) as [Ha Hb].
  { clear Hw. induction Hreach as [loc|s e s' Hreach IH Hstep].
    - by split.
    - eapply refs_live_step; [by apply reachable_wf | exact IH | exact Hstep]. }
  unfold ref_live in *.
  destruct Hw as [Hw | Hw]; rewrite Hw in *;
    destruct (sockets s !! w) as [k|]; simpl in *; try done; by exists k.
Qed.

(** ** Who writes the session cells *)

Ltac in_list := repeat first [apply list_elem_of_here | apply list_elem_of_further].

Lemma strict_eq_str_true v lit : strict_eq_str v lit = true → v = JStr lit.
Proof. destruct v; simpl; try done. by intros ->%bool_decide_eq_true. Qed.

Lemma session_send_on r m s : session (send_on r m s).2 = session s.
Proof.
  destruct r as [w|]; [|done]. unfold send_on, send.
  destruct (sockets s !! w) as [k|]; [|done]. by destruct (readyState k).
Qed.

Lemma handleMessage_session c data s :
  let s' := (handleMessage c data s).2 in
  (frame_type data ≠ Some "bootstrap_ok" → frame_type data ≠ Some "user_switched" →
     user (session s') = user (session s)) ∧
  (frame_type data ≠ Some "bootstrap_ok" → frame_type data ≠ Some "account_switched" →
     account (session s') = account (session s)) ∧
  (frame_type data ≠ Some "snapshot" → overview (session s') = overview (session s)).
Proof.
  destruct data as [| |msg]; [by repeat split..|].
  unfold frame_type, handleMessage, try_catch, mbind, M_bind, lift, mret, M_ret. simpl.
  destruct (getprop msg "type") as [e|ty]; [by repeat split|].
  destruct (strict_eq_str ty "bootstrap_ok") eqn:H1.
  { apply strict_eq_str_true in H1 as ->. split_and!; [done..|].
    intros _. simpl. unfold closure. simpl.
    destruct (getprop msg "user") as [e|u]; simpl; [done|].
    destruct (truthy u); simpl;
      (destruct (getprop msg "account") as [e|a]; simpl; [done|]);
      destruct (truthy a); simpl;
      match goal with
      | |- context [send_on ?r ?m ?s0] =>
          pose proof (session_send_on r m s0) as Hs;
          destruct (send_on r m s0) as [[?|[]] ?]; simpl in *; by rewrite Hs
      end. }
  destruct (strict_eq_str ty "snapshot") eqn:H2.
  { apply strict_eq_str_true in H2 as ->. split_and!; [| |done];
      intros _ _; simpl; by destruct (getprop msg "overview"). }
  destruct (strict_eq_str ty "order_filled") eqn:H3.
  { simpl. unfold closure. simpl.
    pose proof (session_send_on (ws (default (mkClosure None None) (effects s !! c)))
                  get_snapshot
                  (set_toasts (λ l, l ++ [toast_success "Order filled"]) s)) as Hs.
    destruct (send_on _ _ _) as [[e|[]] s1]; simpl in *; rewrite Hs; by repeat split. }
  destruct (strict_eq_str ty "order_pending") eqn:H4.
  { simpl. unfold closure. simpl.
    pose proof (session_send_on (ws (default (mkClosure None None) (effects s !! c)))
                  get_snapshot
                  (set_toasts (λ l, l ++ [toast_plain "Order placed, waiting for fill"
                                            icon_hourglass]) s)) as Hs.
    destruct (send_on _ _ _) as [[e|[]] s1]; simpl in *; rewrite Hs; by repeat split. }
  destruct (strict_eq_str ty "user_switched") eqn:H5.
  { apply strict_eq_str_true in H5 as ->. split_and!; [done|..];
      intros; simpl;
      (destruct (getprop msg "user") as [e|u]; simpl; [done|]);
      (destruct (getprop u "username") as [e|n]; simpl; [done|]);
      by destruct (ToString n). }
  destruct (strict_eq_str ty "account_switched") eqn:H6.
  { apply strict_eq_str_true in H6 as ->. split_and!; [|done|];
      intros; simpl;
      (destruct (getprop msg "account") as [e|u]; simpl; [done|]);
      (destruct (getprop u "name") as [e|n]; simpl; [done|]);
      by destruct (ToString n). }
  destruct (strict_eq_str ty "error") eqn:H7; simpl; [|by repeat split].
  by destruct (getprop msg "message").
Qed.

Lemma preserves_dispatch I w (h : nat → M unit) :
  (∀ c, preserves I (h c)) → preserves I (dispatch w h).
Proof. intros Hh. unfold dispatch. repeat first [apply Hh | preserves_step]. Qed.

Lemma preserves_run I (m : M unit) s :
  (∀ f s, I s → I (set_console f s)) → preserves I m → I s → I (run_callback m s).
Proof.
  intros Hc Hm Hs. unfold run_callback. specialize (Hm s Hs).
  destruct (m s) as [[e|[]] s1]; simpl in *; [by apply Hc | done].
Qed.

Lemma preserves_session_modify (x : Session) f :
  (∀ s, session (f s) = session s) → preserves (λ s, session s = x) (modify f).
Proof. intros Hf. apply preserves_modify. intros s. by rewrite Hf. Qed.

Lemma preserves_session_send_on (x : Session) r m :
  preserves (λ s, session s = x) (send_on r m).
Proof. intros s. by rewrite session_send_on. Qed.

Lemma preserves_session_setTimeout (x : Session) c d :
  preserves (λ s, session s = x) (setTimeout c d).
Proof. by intros s. Qed.

Lemma preserves_session_new_WebSocket (x : Session) b u :
  preserves (λ s, session s = x) (new_WebSocket b u).
Proof. intros s. unfold new_WebSocket. by destruct b. Qed.

Ltac session_step :=
  first
    [ apply preserves_session_send_on | apply preserves_session_setTimeout
    | apply preserves_session_new_WebSocket
    | apply preserves_session_modify; by intros ?
    | preserves_step ].

Lemma preserves_session_connectWebSocket x c b :
  preserves (λ s, session s = x) (connectWebSocket c b).
Proof.
  unfold connectWebSocket, connectWebSocket_body, resolveWsUrl, set_ws,
    set_reconnectTimer, addEventListeners, console_log.
  repeat session_step.
Qed.

Lemma session_step_other e s s' :
  step e s = Some s' → (∀ w data, e ≠ WsMessage w data) → session s' = session s.
Proof.
  intros Hstep Hne.
  assert (∀ (m : M unit) s0, preserves (λ s, session s = session s0) m →
            session (run_callback m s0) = session s0) as Hrun.
  { intros m s0 Hm. by apply (preserves_run (λ s, session s = session s0)). }
  destruct e; simpl in Hstep.
  - destruct (mounted s); simplify_eq. simpl. apply Hrun.
    unfold effect_body. repeat first [apply preserves_session_connectWebSocket | session_step].
  - destruct (mounted s); simplify_eq. simpl. apply Hrun.
    unfold effect_cleanup, clearTimeout. repeat session_step.
  - case_match; by simplify_eq.
  - repeat case_match; simplify_eq.
    apply (preserves_run (λ s0, session s0 = session s)); [done| |done].
    apply preserves_session_connectWebSocket.
  - repeat case_match; simplify_eq.
    apply (preserves_run (λ s0, session s0 = session s)); [done| |done].
    apply preserves_dispatch. intros c. unfold handleOpen. repeat session_step.
  - by destruct (Hne w data).
  - by repeat case_match; simplify_eq.
  - repeat case_match; simplify_eq;
      (apply (preserves_run (λ s0, session s0 = session s)); [done| |done]);
      apply preserves_dispatch; intros c; unfold handleClose, set_reconnectTimer;
      repeat session_step.
  - case_match; simplify_eq. apply Hrun.
    apply preserves_dispatch; intros c. unfold handleError, console_log. repeat session_step.
  - case_match; simplify_eq. apply Hrun.
    unfold switchUser, console_log, toast. repeat session_step.
  - case_match; simplify_eq. apply Hrun.
    unfold handleAccountUpdated. repeat session_step.
Qed.

Lemma session_step_message w data s s' :
  step (WsMessage w data) s = Some s' →
  ∃ c, session s' = session s ∨ session s' = session (handleMessage c data s).2.
Proof.
  simpl. intros Hstep. repeat case_match; simplify_eq.
  rewrite run_dispatch. destruct (listener s w) as [c|]; [|by exists 0%nat; left].
  exists c. right. unfold run_callback.
  by destruct (handleMessage c data s) as [[e|[]] s1].
Qed.

Lemma delivers_false types w data :
  delivers types (WsMessage w data) = false →
  ∀ t, t ∈ types → frame_type data ≠ Some t.
Proof.
  unfold delivers. intros H t Ht E. rewrite E in H.
  by apply bool_decide_eq_false in H.
Qed.

Lemma session_cells_step e s s' :
  step e s = Some s' →
  (delivers ["bootstrap_ok"; "user_switched"] e = false →
     user (session s') = user (session s)) ∧
  (delivers ["bootstrap_ok"; "account_switched"] e = false →
     account (session s') = account (session s)) ∧
  (delivers ["snapshot"] e = false → overview (session s') = overview (session s)).
Proof.
  intros Hstep.
  assert ((∃ w data, e = WsMessage w data) ∨ ∀ w data, e ≠ WsMessage w data)
    as [(w & data & ->)|Hne] by (destruct e; eauto).
  - destruct (session_step_message _ _ _ _ Hstep) as [c [-> | ->]]; [by repeat split|].
    destruct (handleMessage_session c data s) as (Hu & Ha & Ho).
    split_and!; intros H; pose proof (delivers_false _ _ _ H) as Hd.
    + apply Hu; apply Hd; in_list.
    + apply Ha; apply Hd; in_list.
    + apply Ho; apply Hd; in_list.
  - by rewrite (session_step_other e s s' Hstep).
Qed.

(** X5.  The session cells are written by server frames only, each cell by
    frames of its own types: along any run in which no bootstrap_ok or
    user_switched frame is delivered [user] stays as it was, likewise
    [account] without bootstrap_ok and account_switched frames and
    [overview] without snapshot frames.  No user action, timer or
    connection event touches them. *)
Theorem session_cells_follow_frame_types evs s s' :
  run evs s = Some s' →
  (existsb (delivers ["bootstrap_ok"; "user_switched"]) evs = false →
     user (session s') = user (session s)) ∧
  (existsb (delivers ["bootstrap_ok"; "account_switched"]) evs = false →
     account (session s') = account (session s)) ∧
  (existsb (delivers ["snapshot"]) evs = false →
     overview (session s') = overview (session s)).
Proof.
  revert s. induction evs as [|e evs IH]; intros s Hrun; simpl in Hrun.
  - by simplify_eq.
  - destruct (step e s) as [s1|] eqn:Hstep; [|done].
    destruct (IH _ Hrun) as (Hu & Ha & Ho).
    destruct (session_cells_step _ _ _ Hstep) as (Hu1 & Ha1 & Ho1).
    simpl. split_and!; intros [H1 H2]%orb_false_iff.
    + by rewrite Hu, Hu1.
    + by rewrite Ha, Ha1.
    + by rewrite Ho, Ho1.
Qed.

Lemma cell_kept_along_run (cell : Session → jsval) (types : list string) :
  (∀ e s s', step e s = Some s' → delivers types e = false →
             cell (session s') = cell (session s)) →
  ∀ evs s s', run evs s = Some s' → existsb (delivers types) evs = false →
    cell (session s') = cell (session s).
Proof.
  intros Hcell evs. induction evs as [|e evs IH]; intros s s' Hrun Hnone; simpl in *.
  - by simplify_eq.
  - destruct (step e s) as [s1|] eqn:Hstep; [|done].
    apply orb_false_iff in Hnone as [H1 H2].
    rewrite (IH _ _ Hrun H2). by apply (Hcell e).
Qed.

(** X6.  From a freshly loaded page the interface is rendered (instead of
    the placeholder) only after the server has delivered a frame that sets
    the user, one that sets the account and a snapshot. *)
Theorem interface_waits_for_server loc evs s :
  run evs (init loc) = Some s → renders_interface s = true →
  existsb (delivers ["bootstrap_ok"; "user_switched"]) evs = true ∧
  existsb (delivers ["bootstrap_ok"; "account_switched"]) evs = true ∧
  existsb (delivers ["snapshot"]) evs = true.
Proof.
  intros Hrun Hr. unfold renders_interface in Hr.
  apply andb_true_iff in Hr as [[Hru Hra]%andb_true_iff Hro].
  split_and!; apply not_false_iff_true; intros E.
  - rewrite (cell_kept_along_run user _
               (λ e s0 s1 H, proj1 (session_cells_step e s0 s1 H)) _ _ _ Hrun E) in Hru.
    done.
  - rewrite (cell_kept_along_run account _
               (λ e s0 s1 H, proj1 (proj2 (session_cells_step e s0 s1 H))) _ _ _ Hrun E)
      in Hra.
    done.
  - rewrite (cell_kept_along_run overview _
               (λ e s0 s1 H, proj2 (proj2 (session_cells_step e s0 s1 H))) _ _ _ Hrun E)
      in Hro.
    done.
Qed.

(** ** Order events, error frames *)

Lemma handleMessage_order c cl w k fields ty s :
  own_property "type" fields = Some (JStr ty) →
  ty = "order_filled" ∨ ty = "order_pending" →
  effects s !! c = Some cl → ws cl = Some w →
  sockets s !! w = Some k → readyState k = OPEN →
  handleMessage c (Json (JObj fields)) s =
    (inr tt,
     set_sockets (transmit w get_snapshot) (set_toasts (λ l, l ++ [order_toast ty]) s)).
Proof.
  intros Htype Hty Hcl Hws Hk Hr.
  unfold handleMessage, try_catch, mbind, M_bind, lift, mret, M_ret.
  simpl. rewrite Htype; simpl.
  destruct Hty as [-> | ->]; simpl;
    unfold closure; simpl; rewrite Hcl; simpl; rewrite Hws; simpl;
    by (erewrite send_open; [|exact Hk|exact Hr]).
Qed.

(** X7.  An order_filled or order_pending frame shows its one notification
    and asks for a fresh snapshot on the socket it came in on; the session
    cells wait for the snapshot and nothing is logged. *)
Theorem order_frame_requests_snapshot s w fields ty s' :
  reachable s → step (WsMessage w (Json (JObj fields))) s = Some s' →
  own_property "type" fields = Some (JStr ty) →
  ty = "order_filled" ∨ ty = "order_pending" →
  (∃ k, sockets s !! w = Some k ∧
     sockets s' =
       <[w := mkWebSocket (url k) OPEN (handlers k) (sent k ++ [get_snapshot])]> (sockets s)) ∧
  toasts s' = toasts s ++ [order_toast ty] ∧
  session s' = session s ∧ console s' = console s.
Proof.
  intros Hwf%reachable_wf Hstep Htype Hty.
  destruct (message_event _ _ _ _ Hwf Hstep) as (k & c & cl & Hk & Hr & Hh & Hcl & Hws & ->).
  unfold run_callback.
  rewrite (handleMessage_order c cl w k fields ty) by done. simpl.
  split; [|done]. exists k. unfold transmit. by rewrite Hk, Hr.
Qed.

(** X8.  An error frame always ends in exactly one error notification with
    something to show: the frame's [message] when it is truthy, the text
    "Order error" when it is missing, null, empty, zero or false.  Nothing
    is sent and the session, the sockets and the timers stay as they were. *)
Theorem error_frame_always_notifies c fields s :
  own_property "type" fields = Some (JStr "error") →
  ∃ content,
    handleMessage c (Json (JObj fields)) s =
      (inr tt,
       set_toasts (λ l, l ++ [toast_error content])
         (set_console
            (λ l, l ++ [console_error
                          [log_val (default JUndefined (own_property "message" fields))]])
            s)) ∧
    truthy content = true ∧
    (own_property "message" fields = Some content ∨
     content = JStr "Order error" ∧
     truthy (default JUndefined (own_property "message" fields)) = false).
Proof.
  intros Htype.
  unfold handleMessage, try_catch, mbind, M_bind, lift, mret, M_ret.
  simpl. rewrite Htype; simpl.
  destruct (own_property "message" fields) as [m|] eqn:Hm; simpl.
  - destruct (truthy m) eqn:Ht.
    + exists m. by repeat split; auto.
    + exists (JStr "Order error"). by repeat split; auto.
  - exists (JStr "Order error"). by repeat split; auto.
Qed.

(** ** User intents while connected *)

(** X9.  A user intent issued while the connection is open puts exactly one
    frame on the socket [wsRef] names (switch_user with the chosen name, or
    get_snapshot), shows "Switching account..." for a switch and nothing for
    a refresh, logs nothing, and leaves the session to the server's answer. *)
Theorem connected_intent_sends_one_frame e m s s' :
  step e s = Some s' → intent_frame e = Some m → not_connected s = false →
  ∃ w k, wsRef s = Some w ∧ sockets s !! w = Some k ∧ readyState k = OPEN ∧
    sockets s' = <[w := mkWebSocket (url k) OPEN (handlers k) (sent k ++ [m])]> (sockets s) ∧
    toasts s' = toasts s ++ intent_toasts e ∧
    session s' = session s ∧ console s' = console s ∧ wiring s' = wiring s.
Proof.
  intros Hstep Hm Hc.
  destruct (connected_socket s Hc) as (w & k & Hw & Hk & Hr).
  exists w, k. split; [done|]. split; [done|]. split; [done|].
  assert (transmit w m (sockets s) =
            <[w := mkWebSocket (url k) OPEN (handlers k) (sent k ++ [m])]> (sockets s)) as Ht
    by (unfold transmit; by rewrite Hk, Hr).
  assert (wiring (set_sockets (transmit w m) s) = wiring s) as Hq.
  { pose proof (quiet_send w m s) as Hq. by rewrite (send_open w m s k Hk Hr) in Hq. }
  destruct e; simpl in Hm; simplify_eq; simpl in Hstep;
    destruct (renders_interface s); simplify_eq; unfold run_callback.
  - rewrite (switchUser_connected s w) by done. simpl.
    rewrite Ht. split_and!; try done. unfold wiring; simpl. by rewrite Hq.
  - rewrite (handleAccountUpdated_connected s w) by done. simpl.
    rewrite Ht, app_nil_r. split_and!; try done. unfold wiring; simpl. by rewrite Hq.
Qed.

(** ** Pending retries *)

Lemma timers_bounded_ext s s' :
  timers s' = timers s → clock s ≤ clock s' → timers_bounded s → timers_bounded s'.
Proof. intros Ht Hc Hs t tm. rewrite Ht. intros H%Hs. lia. Qed.

Lemma preserves_bounded_modify f :
  (∀ s, timers (f s) = timers s ∧ clock (f s) = clock s) →
  preserves timers_bounded (modify f).
Proof.
  intros Hf. apply preserves_modify. intros s.
  destruct (Hf s) as [Ht Hc]. apply timers_bounded_ext; [done | lia].
Qed.

Lemma preserves_bounded_send_on r m : preserves timers_bounded (send_on r m).
Proof.
  intros s Hs. destruct r as [w|]; [|done]. unfold send_on, send.
  destruct (sockets s !! w) as [k|]; [|done]. by destruct (readyState k).
Qed.

Lemma preserves_bounded_new_WebSocket b u : preserves timers_bounded (new_WebSocket b u).
Proof. intros s Hs. unfold new_WebSocket. by destruct b. Qed.

Lemma preserves_bounded_setTimeout c d :
  d ≤ 5000 → preserves timers_bounded (setTimeout c d).
Proof.
  intros Hd s Hs t tm. unfold setTimeout; simpl.
  destruct (decide (t = next_timer s)) as [->|Hne].
  - rewrite lookup_insert_eq. intros [= <-]. simpl. lia.
  - rewrite lookup_insert_ne by done. apply Hs.
Qed.

Lemma preserves_bounded_clearTimeout t : preserves timers_bounded (clearTimeout t).
Proof.
  intros s Hs t' tm. unfold clearTimeout, modify; simpl.
  intros [_ H]%lookup_delete_Some. by apply (Hs t').
Qed.

Ltac bounded_step :=
  first
    [ apply preserves_bounded_send_on | apply preserves_bounded_new_WebSocket
    | apply preserves_bounded_setTimeout; lia
    | apply preserves_bounded_clearTimeout
    | apply preserves_bounded_modify; by intros ?
    | preserves_step ].

Lemma preserves_bounded_connectWebSocket c b :
  preserves timers_bounded (connectWebSocket c b).
Proof.
  unfold connectWebSocket, connectWebSocket_body, resolveWsUrl, set_ws,
    set_reconnectTimer, addEventListeners, console_log.
  repeat bounded_step.
Qed.

Lemma timers_bounded_wiring s s' :
  wiring s' = wiring s → timers_bounded s → timers_bounded s'.
Proof.
  unfold wiring. intros [= Hc _ _ _ _ _ Ht _]. apply timers_bounded_ext; [done | lia].
Qed.

Lemma timers_bounded_quiet (m : M unit) s :
  quiet m → timers_bounded s → timers_bounded (run_callback m s).
Proof.
  intros Hq Hs. unfold run_callback. specialize (Hq s).
  destruct (m s) as [[e|[]] s1]; simpl in *; eapply timers_bounded_wiring; eauto.
Qed.

Lemma timers_bounded_run (m : M unit) s :
  preserves timers_bounded m → timers_bounded s → timers_bounded (run_callback m s).
Proof. intros Hm. by apply (preserves_run timers_bounded). Qed.

Lemma timers_bounded_step e s s' :
  timers_bounded s → step e s = Some s' → timers_bounded s'.
Proof.
  intros Hs Hstep. destruct e; simpl in Hstep.
  - destruct (mounted s); simplify_eq.
    apply (timers_bounded_ext (run_callback (effect_body (length (effects s)) throws) s));
      [done | simpl; lia |].
    apply timers_bounded_run; [|done]. unfold effect_body.
    repeat first [apply preserves_bounded_connectWebSocket | bounded_step].
  - destruct (mounted s); simplify_eq.
    apply (timers_bounded_ext (run_callback (effect_cleanup n) s)); [done | simpl; lia |].
    apply timers_bounded_run; [|done]. unfold effect_cleanup. repeat bounded_step.
  - case_match eqn:Hdt; simplify_eq. apply Z.leb_le in Hdt.
    intros t tm. simpl. intros Ht%Hs. lia.
  - repeat case_match; simplify_eq.
    apply timers_bounded_run; [apply preserves_bounded_connectWebSocket|].
    intros t' tm'. simpl. intros [_ Ht]%lookup_delete_Some. by apply (Hs t').
  - repeat case_match; simplify_eq.
    apply timers_bounded_quiet; [apply quiet_dispatch, quiet_handleOpen|].
    by apply (timers_bounded_ext s).
  - repeat case_match; simplify_eq.
    apply timers_bounded_quiet; [|done]. apply quiet_dispatch. intros; apply quiet_handleMessage.
  - repeat case_match; simplify_eq; by apply (timers_bounded_ext s).
  - repeat case_match; simplify_eq;
      (apply timers_bounded_run; [|by apply (timers_bounded_ext s)]);
      apply preserves_dispatch; intros c; unfold handleClose, set_reconnectTimer;
      repeat bounded_step.
  - case_match; simplify_eq.
    apply timers_bounded_quiet; [apply quiet_dispatch, quiet_handleError | done].
  - case_match; simplify_eq.
    apply timers_bounded_quiet; [apply quiet_switchUser | done].
  - case_match; simplify_eq.
    apply timers_bounded_quiet; [apply quiet_handleAccountUpdated | done].
Qed.

(** X10.  The pending retries of a reachable state.  A retry is due within
    5000 ms; an effect instance has at most one pending; and it has one
    pending only while every socket carrying its listeners is CLOSED. *)
Theorem pending_retry_discipline s t tm :
  reachable s → timers s !! t = Some tm →
  due tm ≤ clock s + 5000 ∧
  (∀ t' tm', timers s !! t' = Some tm' → callback tm' = callback tm → t' = t) ∧
  (∀ w k, sockets s !! w = Some k → handlers k = Some (callback tm) →
          readyState k = CLOSED).
Proof.
  intros Hreach Ht. pose proof (reachable_wf _ Hreach) as Hwf. split_and!.
  - assert (timers_bounded s) as Hb; [|by apply (Hb t)].
    clear Ht. induction Hreach as [loc|s e s' Hreach IH Hstep].
    + intros t' tm'. simpl. by rewrite lookup_empty.
    + eapply timers_bounded_step; [|exact Hstep]. apply IH. by apply reachable_wf.
  - intros t' tm' Ht' Hcb.
    destruct (wf_armed s Hwf _ _ Ht) as [H1 _].
    destruct (wf_armed s Hwf _ _ Ht') as [H2 _].
    rewrite Hcb, H1 in H2. by simplify_eq.
  - intros w k Hk Hh.
    destruct (wf_armed s Hwf _ _ Ht) as [_ H]. apply (H w).
    unfold wired. rewrite Hk; simpl. by rewrite Hh.
Qed.

(** ** Re-running the effect *)

(** X11.  When the effect runs again and finds the singleton CONNECTING or
    OPEN, it constructs nothing (so a refusing constructor cannot matter),
    arms nothing and logs nothing, points [wsRef] at the singleton, and the
    socket keeps the listeners of the earlier instance that constructed it:
    the new instance starts with [ws] the singleton and no timer. *)
Theorem remount_adopts_live_singleton s throws w k s' :
  reachable s → step (Mount throws) s = Some s' →
  __WS_SINGLETON__ s = Some w → sockets s !! w = Some k → in_flight k = true →
  sockets s' = sockets s ∧ __WS_SINGLETON__ s' = Some w ∧ wsRef s' = Some w ∧
  timers s' = timers s ∧ console s' = console s ∧
  effects s' = effects s ++ [mkClosure (Some w) None] ∧
  mounted s' = Some (length (effects s)) ∧
  ∃ c, handlers k = Some c ∧ (c < length (effects s))%nat.
Proof.
  intros Hwf%reachable_wf Hstep Hsingle Hk Hin.
  pose proof (created_false s w k Hsingle Hk Hin) as Hc.
  simpl in Hstep. destruct (mounted s); simplify_eq.
  rewrite effect_body_unfold, Hc. simpl. rewrite Hsingle.
  split_and!; try done.
  apply (wf_listeners s Hwf w (readyState k)). unfold wired. by rewrite Hk.
Qed.

(** X12.  However often the effect is re-run and whatever its timers do, an
    effect instance never has two connections of its own at once: at most
    one socket carrying its listeners is CONNECTING or OPEN. *)
Theorem one_connection_per_instance s c :
  reachable s → (connections_of s c ≤ 1)%nat.
Proof.
  intros Hwf%reachable_wf. unfold connections_of. apply filter_at_most_one.
  intros i j x y Hi Hj [Hx Hcx] [Hy Hcy].
  assert (∀ w k, sockets s !! w = Some k → in_flight k = true → handlers k = Some c →
            ws <$> effects s !! c = Some (Some w)) as Hown.
  { intros w k Hk Hin Hc. apply (wf_current s Hwf w (readyState k)).
    - unfold wired. rewrite Hk. simpl. by rewrite Hc.
    - unfold in_flight in Hin. by destruct (readyState k). }
  pose proof (Hown _ _ Hi Hx Hcx) as H1. pose proof (Hown _ _ Hj Hy Hcy) as H2.
  rewrite H1 in H2. by simplify_eq.
Qed.

(* ===================================================================== *)
(** ** Loading the pages of a table *)
(* ===================================================================== *)

Lemma table_disabled_while_loading b t :
  TableLoader.loading t = true → Pagination.disabled b (TableLoader.controls t) = true.
Proof. intros Hl. destruct b; simpl; rewrite Hl; apply orb_true_r. Qed.

Lemma table_disabled_initially b a :
  Pagination.disabled b (TableLoader.controls (TableLoader.initial a)) = true.
Proof. by destruct b. Qed.

Lemma table_step_invariant e t t' :
  TableLoader.changes_account e = false →
  TableLoader.at_rest_or_loading t →
  (TableLoader.effect_ran t = false → t = TableLoader.initial (TableLoader.accountId t)) →
  TableLoader.step e t = Some t' →
  TableLoader.at_rest_or_loading t' ∧
  (TableLoader.effect_ran t' = false → t' = TableLoader.initial (TableLoader.accountId t')) ∧
  TableLoader.accountId t' = TableLoader.accountId t.
Proof.
  intros He Ht Hinit Hstep. unfold TableLoader.at_rest_or_loading in *.
  destruct e as [|a|b|i r|i]; simpl in *; try done.
  - destruct (TableLoader.effect_ran t) eqn:Hran; simplify_eq. simpl.
    rewrite Hinit by done. simpl. split_and!; [by right | done | done].
  - destruct (Pagination.disabled b (TableLoader.controls t)) eqn:Hd; simplify_eq; [done|].
    case_bool_decide; simplify_eq; [done|]. simpl.
    destruct Ht as [[Hp Hl]|[Hp Hl]].
    + rewrite Hp. simpl. split_and!; [by right | | done].
      intros Hran. rewrite (Hinit Hran), table_disabled_initially in Hd. done.
    + by rewrite table_disabled_while_loading in Hd.
  - destruct (TableLoader.pending t !! i) as [q|] eqn:Hq; simplify_eq. simpl.
    destruct Ht as [[Hp Hl]|[Hp Hl]]; rewrite Hp in Hq |- *; [done|].
    destruct i as [|i]; [|done]. simpl. split_and!; [by left | | done].
    intros Hran. by rewrite (Hinit Hran) in Hl.
  - destruct (TableLoader.pending t !! i) as [q|] eqn:Hq; simplify_eq. simpl.
    destruct Ht as [[Hp Hl]|[Hp Hl]]; rewrite Hp in Hq |- *; [done|].
    destruct i as [|i]; [|done]. simpl. split_and!; [by left | | done].
    intros Hran. by rewrite (Hinit Hran) in Hl.
Qed.

Lemma table_run_invariant evs : ∀ t t',
  Forall (λ e, TableLoader.changes_account e = false) evs →
  TableLoader.at_rest_or_loading t →
  (TableLoader.effect_ran t = false → t = TableLoader.initial (TableLoader.accountId t)) →
  TableLoader.run evs t = Some t' →
  TableLoader.at_rest_or_loading t' ∧ TableLoader.accountId t' = TableLoader.accountId t.
Proof.
  induction evs as [|e evs IH]; intros t t' Hevs Ht Hinit Hrun; simpl in Hrun.
  - by simplify_eq.
  - destruct (TableLoader.step e t) as [t1|] eqn:Hstep; [|done].
    apply Forall_cons in Hevs as [He Hevs].
    destruct (table_step_invariant _ _ _ He Ht Hinit Hstep) as (H1 & H2 & H3).
    destruct (IH _ _ Hevs H1 H2 Hrun) as [H4 H5]. split; [done | congruence].
Qed.

(** X13.  A table loads one page at a time.  While the parent keeps passing
    the same account, at every moment either nothing is in flight and
    [loading] is off, or exactly one request is in flight, [loading] is on
    (so every paging button is disabled) and the request asks for the
    cursor's page of that account with page size 20.  Hence whatever answer
    arrives is the answer for the page the cursor is on, and it ends the
    loading state. *)
Theorem table_loads_one_page_at_a_time account evs t :
  TableLoader.run evs (TableLoader.initial account) = Some t →
  Forall (λ e, TableLoader.changes_account e = false) evs →
  TableLoader.at_rest_or_loading t ∧ TableLoader.accountId t = account ∧
  (∀ b, TableLoader.loading t = true →
        TableLoader.step (TableLoader.Click b) t = Some t) ∧
  (∀ i r t', TableLoader.step (TableLoader.Resolve i r) t = Some t' →
     TableLoader.pending t !! i =
       Some (TableLoader.mkRequest account (TableLoader.cursor t') 20) ∧
     TableLoader.data t' = Some r ∧ TableLoader.loading t' = false ∧
     TableLoader.pending t' = []).
Proof.
  intros Hrun Hevs.
  assert (TableLoader.at_rest_or_loading (TableLoader.initial account)) as H0 by (by left).
  destruct (table_run_invariant evs _ _ Hevs H0 (λ _, eq_refl) Hrun) as [Ht Ha].
  simpl in Ha. split_and!; [done..| |].
  - intros b Hl. simpl. by rewrite table_disabled_while_loading.
  - intros i r t' Hstep. simpl in Hstep.
    destruct (TableLoader.pending t !! i) as [q|] eqn:Hq; simplify_eq. simpl.
    destruct Ht as [[Hp Hl]|[Hp Hl]]; rewrite Hp in Hq |- *; [done|].
    destruct i as [|i]; [|done]. simpl in *. by simplify_eq.
Qed.

(* ===================================================================== *)
(** ** Loading the balance history *)
(* ===================================================================== *)

Lemma chart_step_invariant e c c' :
  BalanceChart.changes_account e = false →
  BalanceChart.at_rest_or_loading c →
  (BalanceChart.effect_ran c = false → c = BalanceChart.initial (BalanceChart.accountId c)) →
  BalanceChart.step e c = Some c' →
  BalanceChart.at_rest_or_loading c' ∧
  (BalanceChart.effect_ran c' = false →
     c' = BalanceChart.initial (BalanceChart.accountId c')) ∧
  BalanceChart.accountId c' = BalanceChart.accountId c.
Proof.
  intros He Hc Hinit Hstep.
  assert (∀ x, BalanceChart.loading x = false → BalanceChart.pending x = [] →
               BalanceChart.at_rest_or_loading (BalanceChart.reload x)) as Hreload.
  { intros x Hl Hp. right. eexists. unfold BalanceChart.reload, BalanceChart.loadData. simpl.
    rewrite Hp. simpl. split; [reflexivity|]. split; [reflexivity|]. by split. }
  assert (BalanceChart.loading c = false → BalanceChart.pending c = []) as Hrest.
  { intros Hl. destruct Hc as [[Hp _]|(k & _ & Hl' & _)]; [done | congruence]. }
  unfold BalanceChart.step in Hstep.
  destruct (BalanceChart.effect_ran c) eqn:Hran.
  - assert (BalanceChart.at_rest_or_loading c ∧
            (BalanceChart.effect_ran c = false →
               c = BalanceChart.initial (BalanceChart.accountId c)) ∧
            BalanceChart.accountId c = BalanceChart.accountId c) as Hsame
      by (split_and!; [done | congruence | done]).
    destruct e as [|a|r|i| | |i r|i]; simpl in *; try done.
    + destruct (BalanceChart.loading c) eqn:Hl; simplify_eq; [done|].
      case_bool_decide; simplify_eq; [done|].
      split_and!; [apply Hreload; simpl; auto | simpl; congruence | done].
    + destruct (BalanceChart.loading c) eqn:Hl; simplify_eq; [done|].
      case_bool_decide; simplify_eq; [done|].
      split_and!; [apply Hreload; simpl; auto | simpl; congruence | done].
    + destruct (BalanceChart.hasMore c) eqn:Hm, (BalanceChart.loading c) eqn:Hl;
        simpl in Hstep; simplify_eq; try done.
      split_and!; [|simpl; congruence|done]. right. eexists.
      unfold BalanceChart.loadData. simpl.
      rewrite Hrest by done. simpl. split; [reflexivity|]. split; [reflexivity|]. by split.
    + destruct (BalanceChart.loading c) eqn:Hl; simplify_eq; [done|].
      split_and!; [apply Hreload; simpl; auto | simpl; congruence | done].
    + destruct (BalanceChart.pending c !! i) as [k|] eqn:Hk; simplify_eq.
      destruct Hc as [[Hp Hl]|(k' & Hp & Hl & Hk')]; rewrite Hp in Hk; [done|].
      destruct i as [|i]; [|done]. simpl in Hk. simplify_eq.
      split_and!; [|simpl; congruence|done]. left.
      unfold BalanceChart.resolved; simpl. by rewrite Hp.
    + destruct (BalanceChart.pending c !! i) as [k|] eqn:Hk; simplify_eq.
      destruct Hc as [[Hp Hl]|(k' & Hp & Hl & Hk')]; rewrite Hp in Hk; [done|].
      destruct i as [|i]; [|done].
      split_and!; [|simpl; congruence|done]. left.
      unfold BalanceChart.rejected; simpl. by rewrite Hp.
  - destruct e; simplify_eq. rewrite (Hinit eq_refl). simpl.
    split_and!; [|done..]. right. eexists. split; [reflexivity|]. split; [reflexivity|]. by split.
Qed.

Lemma chart_run_invariant evs : ∀ c c',
  Forall (λ e, BalanceChart.changes_account e = false) evs →
  BalanceChart.at_rest_or_loading c →
  (BalanceChart.effect_ran c = false → c = BalanceChart.initial (BalanceChart.accountId c)) →
  BalanceChart.run evs c = Some c' →
  BalanceChart.at_rest_or_loading c' ∧
  (BalanceChart.effect_ran c' = false →
     c' = BalanceChart.initial (BalanceChart.accountId c')) ∧
  BalanceChart.accountId c' = BalanceChart.accountId c.
Proof.
  induction evs as [|e evs IH]; intros c c' Hevs Hc Hinit Hrun; simpl in Hrun.
  - by simplify_eq.
  - destruct (BalanceChart.step e c) as [c1|] eqn:Hstep; [|done].
    apply Forall_cons in Hevs as [He Hevs].
    destruct (chart_step_invariant _ _ _ He Hc Hinit Hstep) as (H1 & H2 & H3).
    destruct (IH _ _ Hevs H1 H2 Hrun) as (H4 & H5 & H6). split_and!; [done..|congruence].
Qed.

(** X14.  The chart loads one window at a time.  While the parent keeps
    passing the same account, at every moment either nothing is in flight
    and [loading] is off, or exactly one call is in flight and [loading] is
    on; that call asks for the selection now shown with limit 100, with no
    [end_time] when it reloads and with the current [endTime] when it pages
    back, which it does only when [hasMore] is on.  While it is in flight
    every button of the view swallows its click. *)
Theorem chart_loads_one_window_at_a_time account evs c :
  BalanceChart.run evs (BalanceChart.initial account) = Some c →
  Forall (λ e, BalanceChart.changes_account e = false) evs →
  BalanceChart.at_rest_or_loading c ∧ BalanceChart.accountId c = account ∧
  (∀ e, BalanceChart.loading c = true → BalanceChart.is_click e = true →
        BalanceChart.step e c = Some c).
Proof.
  intros Hrun Hevs.
  assert (BalanceChart.at_rest_or_loading (BalanceChart.initial account)) as H0
    by (by left).
  destruct (chart_run_invariant evs _ _ Hevs H0 (λ _, eq_refl) Hrun) as (Hc & Hinit & Ha).
  split_and!; [done..|].
  intros e Hl He. unfold BalanceChart.step.
  destruct (BalanceChart.effect_ran c) eqn:Hran.
  - destruct e; simpl in *; try done; rewrite Hl; try done. by rewrite orb_true_r.
  - by rewrite (Hinit eq_refl) in Hl.
Qed.

Lemma chart_step_history e c c' :
  BalanceChart.pages_back e = true →
  Forall (λ k, BalanceChart.append k = true) (BalanceChart.pending c) →
  BalanceChart.step e c = Some c' →
  Forall (λ k, BalanceChart.append k = true) (BalanceChart.pending c') ∧
  BalanceChart.data c `suffix_of` BalanceChart.data c' ∧
  BalanceChart.accountId c' = BalanceChart.accountId c ∧
  BalanceChart.timeRange c' = BalanceChart.timeRange c ∧
  BalanceChart.granularity c' = BalanceChart.granularity c.
Proof.
  intros He Hp Hstep. unfold BalanceChart.step in Hstep.
  destruct (BalanceChart.effect_ran c); [|by destruct e].
  destruct e as [|a|r|i| | |i r|i]; simpl in *; try done.
  - destruct (negb (BalanceChart.hasMore c) || BalanceChart.loading c); simplify_eq; [done|].
    destruct (BalanceChart.hasMore c && negb (BalanceChart.loading c)); simplify_eq; [|done].
    simpl. split_and!; try done. apply Forall_app. split; [done|]. by apply Forall_singleton.
  - destruct (BalanceChart.pending c !! i) as [k|] eqn:Hk; simplify_eq. simpl.
    split_and!; try done.
    + rewrite <- (take_drop_middle _ _ _ Hk) in Hp.
      rewrite delete_take_drop. apply Forall_app in Hp as [H1 H2].
      apply Forall_cons in H2 as [_ H2]. by apply Forall_app.
    + rewrite (proj1 (Forall_lookup _ _) Hp i k Hk). by apply suffix_app_r.
  - destruct (BalanceChart.pending c !! i) as [k|] eqn:Hk; simplify_eq. simpl.
    split_and!; try done.
    rewrite <- (take_drop_middle _ _ _ Hk) in Hp.
    rewrite delete_take_drop. apply Forall_app in Hp as [H1 H2].
    apply Forall_cons in H2 as [_ H2]. by apply Forall_app.
Qed.

(** X15.  Paging back never loses what the chart shows.  From a state with
    nothing in flight, over any sequence of Load More clicks, answers and
    failures, the points shown before are still there in the same order at
    the right end (answers are put in front of them, a failure changes
    nothing), and the selection stays the same. *)
Theorem chart_history_grows_at_front evs : ∀ c c',
  BalanceChart.pending c = [] → BalanceChart.run evs c = Some c' →
  Forall (λ e, BalanceChart.pages_back e = true) evs →
  BalanceChart.data c `suffix_of` BalanceChart.data c' ∧
  BalanceChart.accountId c' = BalanceChart.accountId c ∧
  BalanceChart.timeRange c' = BalanceChart.timeRange c ∧
  BalanceChart.granularity c' = BalanceChart.granularity c.
Proof.
  intros c c' Hp. assert (Forall (λ k, BalanceChart.append k = true)
                            (BalanceChart.pending c)) as Hall by (by rewrite Hp).
  clear Hp. revert c c' Hall.
  induction evs as [|e evs IH]; intros c c' Hall Hrun Hevs; simpl in Hrun.
  - by simplify_eq.
  - destruct (BalanceChart.step e c) as [c1|] eqn:Hstep; [|done].
    apply Forall_cons in Hevs as [He Hevs].
    destruct (chart_step_history _ _ _ He Hall Hstep) as (H1 & H2 & H3 & H4 & H5).
    destruct (IH _ _ H1 Hrun Hevs) as (H6 & H7 & H8 & H9).
    split_and!; [by etrans | congruence..].
Qed.

(* ===================================================================== *)
(** ** Which page is shown *)
(* ===================================================================== *)

Lemma navigation_step_pages e n n' :
  Navigation.step e n = Some n' →
  Navigation.currentPage n ∈ ["chart"; "data"; "manual"; "okx"] →
  Navigation.currentPage n' ∈ ["chart"; "data"; "manual"; "okx"].
Proof.
  intros Hstep Hn. destruct e as [bar i|open]; simpl in Hstep; [|by simplify_eq].
  destruct bar;
    do 5 (destruct i as [|i]; [simpl in Hstep; simplify_eq; first [done | in_list]|]);
    done.
Qed.

Lemma navigation_run_pages evs : ∀ n n',
  Navigation.run evs n = Some n' →
  Navigation.currentPage n ∈ ["chart"; "data"; "manual"; "okx"] →
  Navigation.currentPage n' ∈ ["chart"; "data"; "manual"; "okx"].
Proof.
  induction evs as [|e evs IH]; intros n n' Hrun Hn; simpl in Hrun.
  - by simplify_eq.
  - destruct (Navigation.step e n) as [n1|] eqn:Hstep; [|done].
    eapply IH; [done|]. by eapply navigation_step_pages.
Qed.

(** X16.  Whatever is clicked in the sidebar, the page shown is one of the
    four the sidebar offers; the header title is the title the highlighted
    button carries (the fallback [PAGE_TITLES.comprehensive], which does
    not exist, is never consulted); each bar highlights exactly that one
    button; and with an account present exactly one view is mounted. *)
Theorem navigation_shows_selected_page evs n account :
  Navigation.run evs Navigation.initial = Some n → truthy account = true →
  ∃ text,
    Navigation.pageTitle (Navigation.currentPage n) = Navigation.own (JStr text) ∧
    (∀ bar, filter (λ b, Navigation.highlighted (Navigation.currentPage n) b = true)
              (Navigation.buttons bar) =
            [Navigation.mkNavButton (Some (Navigation.currentPage n)) text]) ∧
    length (Navigation.views (Navigation.currentPage n) account) = 1%nat ∧
    Navigation.pageTitle "comprehensive" = Navigation.missing.
Proof.
  intros Hrun Ha.
  assert (Navigation.currentPage n ∈ ["chart"; "data"; "manual"; "okx"]) as Hn.
  { eapply navigation_run_pages; [exact Hrun|]. simpl. in_list. }
  unfold Navigation.views. rewrite Ha.
  repeat (apply elem_of_cons in Hn as [-> | Hn]);
    [eexists; split_and!; [reflexivity | by intros [] | done | done]..|].
  by apply elem_of_nil in Hn.
Qed.

(* ===================================================================== *)
(** ** The theorems above at concrete inputs *)
(* ===================================================================== *)

Lemma no_exception_escapes_witness :
  reachable (after session_lost) ∧ ∀ e, uncaught e ∉ console (after session_lost).
Proof.
  assert (reachable (after session_lost)) as Hreach
    by (apply after_reachable; vm_compute; eauto).
  split; [exact Hreach|]. exact (no_exception_escapes _ Hreach).
Defined.

Lemma bootstrap_opens_every_stream_witness :
  reachable (after session_up) ∧
  ∃ k, sockets (after session_up) !! 0%nat = Some k ∧
    sent k = [bootstrap "default" 10000; get_snapshot] ∧
    (readyState k = CONNECTING → sent k = []) ∧
    (readyState k = OPEN → sent k ≠ []) ∧
    (sent k = [] ∨
     ∃ rest, sent k = bootstrap "default" 10000 :: rest ∧
             Forall (λ m, is_bootstrap m = false) rest).
Proof.
  assert (reachable (after session_up)) as Hreach
    by (apply after_reachable; vm_compute; eauto).
  split; [exact Hreach|]. eexists. split; [vm_compute; reflexivity|].
  split; [reflexivity|].
  apply (bootstrap_opens_every_stream _ 0%nat _ Hreach). vm_compute; reflexivity.
Defined.

Lemma every_socket_targets_resolved_url_witness :
  reachable (after_at (Some location_remote) [Mount false]) ∧
  ∃ k, sockets (after_at (Some location_remote) [Mount false]) !! 0%nat = Some k ∧
    url k = "wss://trade.example.com/ws" ∧
    wsUrl_at (after_at (Some location_remote) [Mount false]) = inr (url k).
Proof.
  assert (reachable (after_at (Some location_remote) [Mount false])) as Hreach.
  { apply (run_reachable [Mount false] (init (Some location_remote)));
      [apply reachable_init | vm_compute; reflexivity]. }
  split; [exact Hreach|]. eexists. split; [vm_compute; reflexivity|].
  split; [reflexivity|].
  apply (every_socket_targets_resolved_url _ 0%nat _ Hreach). vm_compute; reflexivity.
Defined.

Lemma references_never_name_closed_socket_witness :
  reachable (after session_up) ∧
  (__WS_SINGLETON__ (after session_up) = Some 0%nat ∨ wsRef (after session_up) = Some 0%nat) ∧
  ∃ k, sockets (after session_up) !! 0%nat = Some k ∧ readyState k ≠ CLOSED.
Proof.
  assert (reachable (after session_up)) as Hreach
    by (apply after_reachable; vm_compute; eauto).
  assert (__WS_SINGLETON__ (after session_up) = Some 0%nat ∨
          wsRef (after session_up) = Some 0%nat) as Href
    by (left; vm_compute; reflexivity).
  split; [exact Hreach|]. split; [exact Href|].
  exact (references_never_name_closed_socket _ 0%nat Hreach Href).
Defined.

Lemma session_cells_follow_frame_types_witness :
  run [ClickSwitchUser "alice"; WsMessage 0 (Json (JObj fields_snapshot)); WsClose 0 1006]
    (after session_up) =
    Some (after (session_up ++
                 [ClickSwitchUser "alice"; WsMessage 0 (Json (JObj fields_snapshot));
                  WsClose 0 1006])) ∧
  user (session (after (session_up ++
                 [ClickSwitchUser "alice"; WsMessage 0 (Json (JObj fields_snapshot));
                  WsClose 0 1006]))) = user (session (after session_up)) ∧
  account (session (after (session_up ++
                 [ClickSwitchUser "alice"; WsMessage 0 (Json (JObj fields_snapshot));
                  WsClose 0 1006]))) = account (session (after session_up)).
Proof.
  assert (run [ClickSwitchUser "alice"; WsMessage 0 (Json (JObj fields_snapshot));
               WsClose 0 1006] (after session_up) =
          Some (after (session_up ++
                 [ClickSwitchUser "alice"; WsMessage 0 (Json (JObj fields_snapshot));
                  WsClose 0 1006]))) as Hrun by (vm_compute; reflexivity).
  split; [exact Hrun|].
  destruct (session_cells_follow_frame_types _ _ _ Hrun) as (Hu & Ha & _).
  split; [apply Hu | apply Ha]; reflexivity.
Defined.

Lemma interface_waits_for_server_witness :
  run session_up (init None) = Some (after session_up) ∧
  renders_interface (after session_up) = true ∧
  existsb (delivers ["bootstrap_ok"; "user_switched"]) session_up = true ∧
  existsb (delivers ["bootstrap_ok"; "account_switched"]) session_up = true ∧
  existsb (delivers ["snapshot"]) session_up = true.
Proof.
  assert (run session_up (init None) = Some (after session_up)) as Hrun
    by (vm_compute; reflexivity).
  assert (renders_interface (after session_up) = true) as Hr by (vm_compute; reflexivity).
  split; [exact Hrun|]. split; [exact Hr|].
  exact (interface_waits_for_server None session_up _ Hrun Hr).
Defined.

Lemma order_frame_requests_snapshot_witness :
  reachable (after session_up) ∧
  step (WsMessage 0 (Json (JObj fields_order_filled))) (after session_up) =
    Some (after (session_up ++ [WsMessage 0 (Json (JObj fields_order_filled))])) ∧
  toasts (after (session_up ++ [WsMessage 0 (Json (JObj fields_order_filled))])) =
    toasts (after session_up) ++ [toast_success "Order filled"] ∧
  session (after (session_up ++ [WsMessage 0 (Json (JObj fields_order_filled))])) =
    session (after session_up).
Proof.
  assert (reachable (after session_up)) as Hreach
    by (apply after_reachable; vm_compute; eauto).
  assert (step (WsMessage 0 (Json (JObj fields_order_filled))) (after session_up) =
          Some (after (session_up ++ [WsMessage 0 (Json (JObj fields_order_filled))])))
    as Hstep by (vm_compute; reflexivity).
  split; [exact Hreach|]. split; [exact Hstep|].
  destruct (order_frame_requests_snapshot _ _ _ "order_filled" _ Hreach Hstep eq_refl
              (or_introl eq_refl)) as (_ & Ht & Hs & _).
  split; [exact Ht | exact Hs].
Defined.

Lemma error_frame_always_notifies_witness :
  own_property "type" fields_error = Some (JStr "error") ∧
  ∃ content,
    (handleMessage 0 (Json (JObj fields_error)) (after session_up)).1 = inr tt ∧
    toasts (handleMessage 0 (Json (JObj fields_error)) (after session_up)).2 =
      toasts (after session_up) ++ [toast_error content] ∧
    truthy content = true.
Proof.
  split; [reflexivity|].
  destruct (error_frame_always_notifies 0 fields_error (after session_up) eq_refl)
    as (content & Heq & Ht & _).
  exists content. rewrite Heq. clear Heq. generalize (after session_up). intros s.
  split; [reflexivity|]. split; [reflexivity | exact Ht].
Defined.

Lemma connected_intent_sends_one_frame_witness :
  step (ClickSwitchUser "alice") (after session_up) =
    Some (after (session_up ++ [ClickSwitchUser "alice"])) ∧
  not_connected (after session_up) = false ∧
  ∃ w k, wsRef (after session_up) = Some w ∧ sockets (after session_up) !! w = Some k ∧
    sockets (after (session_up ++ [ClickSwitchUser "alice"])) =
      <[w := mkWebSocket (url k) OPEN (handlers k) (sent k ++ [switch_user "alice"])]>
        (sockets (after session_up)) ∧
    toasts (after (session_up ++ [ClickSwitchUser "alice"])) =
      toasts (after session_up) ++ [toast_plain "Switching account..." icon_cycle].
Proof.
  assert (step (ClickSwitchUser "alice") (after session_up) =
          Some (after (session_up ++ [ClickSwitchUser "alice"]))) as Hstep
    by (vm_compute; reflexivity).
  assert (not_connected (after session_up) = false) as Hc by (vm_compute; reflexivity).
  split; [exact Hstep|]. split; [exact Hc|].
  destruct (connected_intent_sends_one_frame _ (switch_user "alice") _ _ Hstep eq_refl Hc)
    as (w & k & Hw & Hk & _ & Hs & Ht & _).
  exists w, k. split; [exact Hw|]. split; [exact Hk|]. split; [exact Hs | exact Ht].
Defined.

Lemma pending_retry_discipline_witness :
  reachable (after session_lost) ∧
  timers (after session_lost) !! 1%nat = Some (mkTimer 3000 0) ∧
  3000 ≤ clock (after session_lost) + 5000 ∧
  (∀ w k, sockets (after session_lost) !! w = Some k → handlers k = Some 0%nat →
          readyState k = CLOSED).
Proof.
  assert (reachable (after session_lost)) as Hreach
    by (apply after_reachable; vm_compute; eauto).
  assert (timers (after session_lost) !! 1%nat = Some (mkTimer 3000 0)) as Ht
    by (vm_compute; reflexivity).
  split; [exact Hreach|]. split; [exact Ht|].
  destruct (pending_retry_discipline _ _ _ Hreach Ht) as (Hdue & _ & Hclosed).
  split; [exact Hdue | exact Hclosed].
Defined.

Lemma remount_adopts_live_singleton_witness :
  reachable (after unmounted) ∧
  step (Mount true) (after unmounted) = Some (after (unmounted ++ [Mount true])) ∧
  sockets (after (unmounted ++ [Mount true])) = sockets (after unmounted) ∧
  wsRef (after (unmounted ++ [Mount true])) = Some 0%nat ∧
  console (after (unmounted ++ [Mount true])) = console (after unmounted).
Proof.
  assert (reachable (after unmounted)) as Hreach
    by (apply after_reachable; vm_compute; eauto).
  assert (step (Mount true) (after unmounted) = Some (after (unmounted ++ [Mount true])))
    as Hstep by (vm_compute; reflexivity).
  split; [exact Hreach|]. split; [exact Hstep|].
  destruct (remount_adopts_live_singleton _ true 0%nat
              (mkWebSocket "ws://localhost:5611/ws" CONNECTING (Some 0%nat) [])
              _ Hreach Hstep eq_refl eq_refl eq_refl)
    as (Hs & _ & Hw & _ & Hc & _).
  split; [exact Hs|]. split; [exact Hw | exact Hc].
Defined.

Lemma one_connection_per_instance_witness :
  reachable (after remount_race) ∧
  connections (after remount_race) = 2%nat ∧
  (connections_of (after remount_race) 0 ≤ 1)%nat.
Proof.
  assert (reachable (after remount_race)) as Hreach
    by (apply after_reachable; vm_compute; eauto).
  split; [exact Hreach|]. split; [vm_compute; reflexivity|].
  exact (one_connection_per_instance _ 0%nat Hreach).
Defined.

Lemma table_loads_one_page_at_a_time_witness :
  TableLoader.run table_trace (TableLoader.initial 7) = Some (table_after table_trace) ∧
  Forall (λ e, TableLoader.changes_account e = false) table_trace ∧
  TableLoader.pending (table_after table_trace) = [TableLoader.mkRequest 7 2 20] ∧
  TableLoader.at_rest_or_loading (table_after table_trace) ∧
  TableLoader.accountId (table_after table_trace) = 7.
Proof.
  assert (TableLoader.run table_trace (TableLoader.initial 7) =
          Some (table_after table_trace)) as Hrun by (vm_compute; reflexivity).
  assert (Forall (λ e, TableLoader.changes_account e = false) table_trace) as Hall
    by (repeat constructor).
  split; [exact Hrun|]. split; [exact Hall|]. split; [reflexivity|].
  destruct (table_loads_one_page_at_a_time 7 table_trace _ Hrun Hall) as (H1 & H2 & _).
  split; [exact H1 | exact H2].
Defined.

Lemma chart_loads_one_window_at_a_time_witness :
  BalanceChart.run chart_trace (BalanceChart.initial 7) = Some (chart_after chart_trace) ∧
  Forall (λ e, BalanceChart.changes_account e = false) chart_trace ∧
  BalanceChart.pending (chart_after chart_trace) =
    [BalanceChart.mkCall
       (BalanceChart.mkRequest 7 BalanceChart.range_24h BalanceChart.interval_6m
          (Some "2025-01-01T00:00:00") 100) true] ∧
  BalanceChart.at_rest_or_loading (chart_after chart_trace) ∧
  BalanceChart.accountId (chart_after chart_trace) = 7.
Proof.
  assert (BalanceChart.run chart_trace (BalanceChart.initial 7) =
          Some (chart_after chart_trace)) as Hrun by (vm_compute; reflexivity).
  assert (Forall (λ e, BalanceChart.changes_account e = false) chart_trace) as Hall
    by (repeat constructor).
  split; [exact Hrun|]. split; [exact Hall|]. split; [reflexivity|].
  destruct (chart_loads_one_window_at_a_time 7 chart_trace _ Hrun Hall) as (H1 & H2 & _).
  split; [exact H1 | exact H2].
Defined.

Lemma chart_history_grows_at_front_witness :
  BalanceChart.pending (chart_after (take 2 chart_trace)) = [] ∧
  BalanceChart.run chart_history (chart_after (take 2 chart_trace)) =
    Some (chart_after (take 2 chart_trace ++ chart_history)) ∧
  Forall (λ e, BalanceChart.pages_back e = true) chart_history ∧
  BalanceChart.data (chart_after (take 2 chart_trace ++ chart_history)) =
    [JNum 1; JNum 2; JNum 3; JNum 4] ∧
  BalanceChart.data (chart_after (take 2 chart_trace)) `suffix_of`
    BalanceChart.data (chart_after (take 2 chart_trace ++ chart_history)).
Proof.
  assert (BalanceChart.pending (chart_after (take 2 chart_trace)) = []) as Hp
    by reflexivity.
  assert (BalanceChart.run chart_history (chart_after (take 2 chart_trace)) =
          Some (chart_after (take 2 chart_trace ++ chart_history))) as Hrun
    by (vm_compute; reflexivity).
  assert (Forall (λ e, BalanceChart.pages_back e = true) chart_history) as Hall
    by (repeat constructor).
  split; [exact Hp|]. split; [exact Hrun|]. split; [exact Hall|]. split; [reflexivity|].
  exact (proj1 (chart_history_grows_at_front chart_history _ _ Hp Hrun Hall)).
Defined.

Lemma navigation_shows_selected_page_witness :
  Navigation.run nav_trace Navigation.initial = Some (Navigation.mkNav "okx" false) ∧
  truthy account_paper = true ∧
  ∃ text,
    Navigation.pageTitle "okx" = Navigation.own (JStr text) ∧
    (∀ bar, filter (λ b, Navigation.highlighted "okx" b = true) (Navigation.buttons bar) =
            [Navigation.mkNavButton (Some "okx") text]) ∧
    length (Navigation.views "okx" account_paper) = 1%nat ∧
    Navigation.pageTitle "comprehensive" = Navigation.missing.
Proof.
  assert (Navigation.run nav_trace Navigation.initial =
          Some (Navigation.mkNav "okx" false)) as Hrun by reflexivity.
  split; [exact Hrun|]. split; [reflexivity|].
  exact (navigation_shows_selected_page nav_trace _ account_paper Hrun eq_refl).
Defined.
